(** * Silence Suzuka: playback orchestration core

    A shallow embedding of the queue, ledger, silence-monitor and backend
    logic of [silence-suzuka.py], with the properties of its specification
    stated and proved (or refuted) over that embedding.

    Conventions of the embedding:
    - Python [str] values are [string]; the regular-expression and substring
      code works on their characters ([list ascii]);
    - Python numbers that are wall-clock times, playback positions and
      amplitudes are exact rationals ([Q]);
    - queue indices are [Z], because the source stores [-1] in them;
    - the fields of [self] that a method reads or writes are a record that is
      passed in and returned; what a method obtains from the outside world
      (the clock, the player, the random generator) is an argument. *)

From Stdlib Require Import List String Ascii Bool Arith ZArith QArith Lia Lqa.
From Stdlib Require Import Permutation Sorted Orders OrdersEx Mergesort.
Import ListNotations.

Local Open Scope list_scope.

(* ================================================================== *)
(** * Canonical references: [_clean_url]                               *)
(* ================================================================== *)

Module CleanUrl.

Definition text := list ascii.

(** The characters of a Python string literal. *)
Definition T (s : string) : text := list_ascii_of_string s.

(** [strip_prefix p s] is [Some r] when [s = p ++ r]. *)
Fixpoint strip_prefix (p s : text) : option text :=
  match p with
  | [] => Some s
  | c :: p' =>
      match s with
      | d :: s' => if Ascii.eqb c d then strip_prefix p' s' else None
      | [] => None
      end
  end.

(** Python's [needle in hay] on strings. *)
Fixpoint contains (needle hay : text) : bool :=
  match strip_prefix needle hay with
  | Some _ => true
  | None =>
      match hay with
      | [] => false
      | _ :: t => contains needle t
      end
  end.

(** ** The fragment of [re] that the two patterns use

    A pattern is a function from the remaining input to the text it matches
    from there (continuation-passing, so that an optional item is tried
    greedily first and given up when the rest of the pattern fails, as the
    backtracking matcher of [re] does). *)

Definition pattern := text -> option text.

(** A literal run of characters followed by [k]. *)
Definition lit (p : text) (k : pattern) : pattern :=
  fun s =>
    match strip_prefix p s with
    | Some r => option_map (app p) (k r)
    | None => None
    end.

(** [(?:p)?] or [c?] followed by [k]: greedy, with backtracking. *)
Definition opt (p : text) (k : pattern) : pattern :=
  fun s =>
    match lit p k s with
    | Some m => Some m
    | None => k s
    end.

Fixpoint take_while (cls : ascii -> bool) (s : text) : text :=
  match s with
  | [] => []
  | c :: s' => if cls c then c :: take_while cls s' else []
  end.

(** [[cls]+] at the end of a pattern: the longest non-empty run. *)
Definition plus_class (cls : ascii -> bool) : pattern :=
  fun s =>
    match take_while cls s with
    | [] => None
    | m => Some m
    end.

(** [re.search]: the match at the leftmost position that has one. *)
Fixpoint search (re : pattern) (s : text) : option text :=
  match re s with
  | Some m => Some m
  | None =>
      match s with
      | [] => None
      | _ :: t => search re t
      end
  end.

Definition in_range (lo hi c : ascii) : bool :=
  (N_of_ascii lo <=? N_of_ascii c)%N && (N_of_ascii c <=? N_of_ascii hi)%N.

(** [[a-zA-Z0-9]] *)
Definition alnum (c : ascii) : bool :=
  in_range "a" "z" c || in_range "A" "Z" c || in_range "0" "9" c.

(** [[a-zA-Z0-9_-]] *)
Definition idchar (c : ascii) : bool :=
  alnum c || Ascii.eqb c "_" || Ascii.eqb c "-".

(** [(https?://(?:www\.)?bilibili\.com/video/BV[a-zA-Z0-9]+)] *)
Definition bilibili_re : pattern :=
  lit (T "http") (opt (T "s") (lit (T "://") (opt (T "www.")
    (lit (T "bilibili.com/video/BV") (plus_class alnum))))).

(** [(https?://(?:www\.)?youtube\.com/watch\?v=[a-zA-Z0-9_-]+)] *)
Definition youtube_re : pattern :=
  lit (T "http") (opt (T "s") (lit (T "://") (opt (T "www.")
    (lit (T "youtube.com/watch?v=") (plus_class idchar))))).

(** The body of [_clean_url]; [group(1)] is the whole match because the
    group encloses the whole pattern.  The [elif] is only reached when
    ['bilibili.com'] does not occur in the url. *)
Definition clean_text (url : text) : text :=
  if contains (T "bilibili.com") url then
    match search bilibili_re url with
    | Some m => m
    | None => url
    end
  else if contains (T "youtube.com") url then
    match search youtube_re url with
    | Some m => m
    | None => url
    end
  else url.

Definition _clean_url (url : string) : string :=
  string_of_list_ascii (clean_text (list_ascii_of_string url)).

End CleanUrl.

(* ================================================================== *)
(** * Python containers                                                *)
(* ================================================================== *)

(** A [dict] with string keys: an association list in insertion order with
    at most one binding per key ([dict_set] keeps it so). *)
Module Dict.
Section Dict.
Context {V : Type}.

Definition dict := list (string * V).

Fixpoint get (k : string) (d : dict) : option V :=
  match d with
  | [] => None
  | (k', v) :: d' => if String.eqb k k' then Some v else get k d'
  end.

(** [k in d] *)
Definition mem (k : string) (d : dict) : bool :=
  match get k d with Some _ => true | None => false end.

(** [d[k] = v]: an existing key keeps its place, a new one goes last. *)
Fixpoint set (k : string) (v : V) (d : dict) : dict :=
  match d with
  | [] => [(k, v)]
  | (k', v') :: d' =>
      if String.eqb k k' then (k, v) :: d' else (k', v') :: set k v d'
  end.

Definition keys (d : dict) : list string := map fst d.

End Dict.
Arguments dict : clear implicits.
End Dict.

(** [sorted(days, reverse=True)] on strings: a merge sort on the reversed
    lexicographic order of [str]. *)
Module DescString <: Orders.TotalLeBool.
Definition t := string.
Definition leb (x y : string) : bool := String.leb y x.
Definition leb_total (x y : string) : leb x y = true \/ leb y x = true :=
  String.leb_total y x.
End DescString.

Module DescSort := Mergesort.Sort DescString.

(** [l[:i]] and [l[i:]] with Python's treatment of negative and
    out-of-range bounds. *)
Module Slice.
Section Slice.
Context {A : Type}.

Definition bound (l : list A) (i : Z) : nat :=
  let n := Z.of_nat (List.length l) in
  Z.to_nat (if (i <? 0)%Z then Z.max 0 (i + n) else Z.min i n).

Definition upto (l : list A) (i : Z) : list A := firstn (bound l i) l.
Definition from (l : list A) (i : Z) : list A := skipn (bound l i) l.

End Slice.
End Slice.

(** [random.shuffle]: the generator is outside the program, so a shuffle is
    any function that permutes its argument. *)
Record shuffler := {
  shuffle :> list string -> list string;
  shuffle_perm : forall l, Permutation (shuffle l) l
}.

Definition keep_order : shuffler :=
  {| shuffle := fun l => l; shuffle_perm := @Permutation_refl string |}.

Definition reversing : shuffler :=
  {| shuffle := @rev string;
     shuffle_perm := fun l => Permutation_sym (Permutation_rev l) |}.

(* ================================================================== *)
(** * The progress ledger: [self.stats]                                *)
(* ================================================================== *)

Module Ledger.

(** ['timestamps']: canonical ref to a position in seconds, or to [-1]
    for a finished item. *)
Definition timestamps := Dict.dict Q.

(** The value under a key of [self.stats]: a day's dict (its counters and
    its ['timestamps'], which may be missing) or anything else, such as
    the ['url_stats'] entry of older files. *)
Inductive entry :=
  | NotADict
  | Day (counters : Dict.dict Q) (ts : option timestamps).

Definition stats := Dict.dict entry.

(** [data.get('timestamps', {})] *)
Definition timestamps_of (ts : option timestamps) : timestamps :=
  match ts with Some t => t | None => [] end.

(** What [get_saved_timestamp_status] returns: [None], ["finished"], or the
    stored number. *)
Inductive status :=
  | NoRecord
  | Finished
  | Position (seconds : Q).

Definition sorted_days (st : stats) : list string :=
  DescSort.sort
    (filter (fun day => negb (String.eqb day "url_stats")) (Dict.keys st)).

(** The [for day in sorted_days] loop: the value of the first day, in the
    given order, whose timestamps hold [url]. *)
Fixpoint first_match (st : stats) (url : string) (days : list string) : option Q :=
  match days with
  | [] => None
  | day :: rest =>
      match Dict.get day st with
      | Some (Day _ ts) =>
          match Dict.get url (timestamps_of ts) with
          | Some v => Some v
          | None => first_match st url rest
          end
      | _ => first_match st url rest
      end
  end.

Definition status_of (latest : option Q) : status :=
  match latest with
  | Some v => if Qeq_bool v (-1) then Finished else Position v
  | None => NoRecord
  end.

Definition get_saved_timestamp_status (st : stats) (url : string) : status :=
  let url := CleanUrl._clean_url url in
  status_of (first_match st url (sorted_days st)).

(** [get_saved_timestamp] walks [self.stats.items()] in insertion order. *)
Fixpoint get_saved_timestamp_from (url : string) (st : stats) : option Q :=
  match st with
  | [] => None
  | (day, data) :: rest =>
      match data with
      | Day _ ts =>
          if String.eqb day "url_stats" then get_saved_timestamp_from url rest
          else
            match Dict.get url (timestamps_of ts) with
            | Some v => Some v
            | None => get_saved_timestamp_from url rest
            end
      | NotADict => get_saved_timestamp_from url rest
      end
  end.

Definition get_saved_timestamp (st : stats) (file_path : string) : option Q :=
  get_saved_timestamp_from (CleanUrl._clean_url file_path) st.

(** The three lines shared by [save_current_timestamp] and
    [mark_as_watched]:
<<
    if today not in self.stats: self.stats[today] = {'timestamps': {}}
    self.stats[today].setdefault('timestamps', {})[url] = value
>>
    [None] is the exception raised when [self.stats[today]] is not a dict. *)
Definition store (st : stats) (today url : string) (value : Q) : option stats :=
  let st1 := if Dict.mem today st then st else Dict.set today (Day [] (Some [])) st in
  match Dict.get today st1 with
  | Some (Day counters ts) =>
      Some (Dict.set today
              (Day counters (Some (Dict.set url value (timestamps_of ts)))) st1)
  | _ => None
  end.

End Ledger.

(* ================================================================== *)
(** * The playback backends                                            *)
(* ================================================================== *)

Module Backend.

(** A line of [self.log] with its colour. *)
Record log_line := { text : string; colour : string }.

Definition is_warning (l : log_line) : bool := String.eqb (colour l) "orange".

(** A call either returns or lets an exception out; either way it may have
    logged lines. *)
Inductive result (A : Type) :=
  | Returns (a : A)
  | Raises.
Arguments Returns {A} a.
Arguments Raises {A}.

Definition io (A : Type) : Type := result A * list log_line.

Definition ret {A} (a : A) : io A := (Returns a, []).

Definition bind {A B} (m : io A) (k : A -> io B) : io B :=
  match m with
  | (Returns a, lg) => let (r, lg') := k a in (r, lg ++ lg')
  | (Raises, lg) => (Raises, lg)
  end.

(** What one request over the IPC channel of the external player ends in. *)
Inductive ipc_outcome :=
  | IpcData (v : Q)        (* a line with ["data"] and [error == "success"] *)
  | IpcNoData              (* a reply without such a line *)
  | IpcTimeout             (* [socket.timeout] *)
  | IpcIOError             (* [IOError] / [OSError] *)
  | IpcBadJson             (* [json.JSONDecodeError] *)
  | IpcOtherError.         (* an exception the [except] clause does not name *)

(** What one [execute_script] call on the browser ends in.  Selenium's
    [JavascriptException] is a [WebDriverException], so an [except] clause
    for the latter takes both. *)
Inductive script_outcome :=
  | ScriptNumber (v : Q)
  | ScriptBool (b : bool)
  | ScriptNull
  | ScriptWebDriverException
  | ScriptTypeError
  | ScriptOtherError.      (* an exception no [except] clause names *)

(** [self.mpv_process] with what [poll()] answers now, and [self.browser]. *)
Record handles := {
  mpv_process : option bool;      (* [Some exited] *)
  mpv_ipc_path : bool;
  browser : bool
}.

Definition query_mpv (h : handles) (property_name : string) (o : ipc_outcome)
  : io (option Q) :=
  match mpv_process h, mpv_ipc_path h with
  | Some _, true =>
      match o with
      | IpcData v => (Returns (Some v), [])
      | IpcNoData =>
          (Returns None,
           [{| text := "MPV query for '" ++ property_name ++ "' did not return data.";
               colour := "orange" |}])
      | IpcTimeout | IpcIOError | IpcBadJson =>
          (Returns None,
           [{| text := "Error querying MPV property '" ++ property_name ++ "'";
               colour := "orange" |}])
      | IpcOtherError => (Raises, [])
      end
  | _, _ => (Returns None, [])
  end.

(** The browser branch shared by [get_video_timestamp] and
    [get_video_duration]: the script's answer when it is an [int] or a
    [float] (a [bool] is an [int]), else [0]; [0] as well on a
    [WebDriverException]. *)
Definition script_number (js : script_outcome) : io Q :=
  match js with
  | ScriptNumber v => ret v
  | ScriptBool b => ret (if b then 1 else 0)
  | ScriptNull => ret 0
  | ScriptWebDriverException => ret 0
  | ScriptTypeError | ScriptOtherError => (Raises, [])
  end.

Definition get_video_timestamp (h : handles) (o : ipc_outcome) (js : script_outcome)
  : io Q :=
  match mpv_process h with
  | Some false =>
      bind (query_mpv h "time-pos" o)
           (fun timestamp => ret (match timestamp with Some t => t | None => 0 end))
  | _ => if browser h then script_number js else ret 0
  end.

Definition get_video_duration (h : handles) (o : ipc_outcome) (js : script_outcome)
  : io Q :=
  match mpv_process h with
  | Some false =>
      bind (query_mpv h "duration" o)
           (fun duration => ret (match duration with Some t => t | None => 0 end))
  | _ => if browser h then script_number js else ret 0
  end.

(** The truth value of what [is_video_ended] returns. *)
Definition is_video_ended (h : handles) (js : script_outcome) : io bool :=
  match mpv_process h with
  | Some exited => ret exited
  | None =>
      if browser h then
        match js with
        | ScriptBool b => ret b
        | ScriptNumber v => ret (negb (Qeq_bool v 0))
        | ScriptNull => ret false
        | ScriptWebDriverException => ret true
        | ScriptTypeError => ret false
        | ScriptOtherError => (Raises, [])
        end
      else ret false
  end.

(** The observations one call of [is_video_finished] makes, in order. *)
Record finished_probe := {
  position_reply : ipc_outcome;  position_script : script_outcome;
  duration_reply : ipc_outcome;  duration_script : script_outcome;
  ended_script : script_outcome
}.

Definition is_video_finished (h : handles) (finished_percentage : Z) (p : finished_probe)
  : io bool :=
  bind (get_video_timestamp h (position_reply p) (position_script p)) (fun current_time =>
  bind (get_video_duration h (duration_reply p) (duration_script p)) (fun total_duration =>
  if (if Qlt_le_dec 0 total_duration
      then Qle_bool (inject_Z finished_percentage) ((current_time / total_duration) * 100)
      else false)
  then ret true
  else is_video_ended h (ended_script p))).

End Backend.

(* ================================================================== *)
(** * Saving progress: [save_current_timestamp]                        *)
(* ================================================================== *)

Module Progress.
Import Ledger Backend.

(** [not self.current_url]: [None] or the empty string. *)
Definition falsy_url (u : option string) : bool :=
  match u with
  | None => true
  | Some s => String.eqb s ""
  end.

(** What one call reads from outside: the clock's date, the position probe
    of [get_video_timestamp] and the probes of [is_video_finished]. *)
Record save_probe := {
  today : string;
  timestamp_reply : ipc_outcome;
  timestamp_script : script_outcome;
  finished_query : finished_probe
}.

(** A ledger write inside a call: the exception of [store] gets out. *)
Definition write (r : option stats) : io stats :=
  match r with
  | Some st => ret st
  | None => (Raises, [])
  end.

(** [save_current_timestamp]: the ledger after the call. *)
Definition save_current_timestamp
    (save_timestamp : bool) (current_url : option string)
    (h : handles) (finished_percentage : Z) (p : save_probe) (st : stats)
  : io stats :=
  match current_url with
  | Some url =>
      if negb save_timestamp || falsy_url current_url then ret st
      else
        let timestamp_url := CleanUrl._clean_url url in
        bind (get_video_timestamp h (timestamp_reply p) (timestamp_script p))
          (fun timestamp =>
        bind (is_video_finished h finished_percentage (finished_query p))
          (fun finished =>
        if finished then write (store st (today p) timestamp_url (-1))
        else if Qlt_le_dec 0 timestamp then
          write (store st (today p) timestamp_url timestamp)
        else ret st))
  | None => ret st
  end.

(** [mark_as_watched] on the selected url; [None] when the write raises. *)
Definition mark_as_watched (url today : string) (st : stats) : option stats :=
  store st today (CleanUrl._clean_url url) (-1).

End Progress.

(* ================================================================== *)
(** * The queue and its navigation                                     *)
(* ================================================================== *)

Module Player.

(** The fields of [self] that queue building, mode changes and navigation
    read or write.  [all_tree_items] holds the ['url'] of each item.  Log
    lines and widget updates ([update_playlist_info], [jump_entry_var], the
    enabling of the custom check boxes) change none of these fields and are
    left out. *)
Record state := {
  is_monitoring : bool;
  main_queue : list string;
  main_queue_index : Z;
  current_playlist_videos : list string;
  current_playlist_index : Z;
  current_url : option string;
  skip_event : bool;
  all_tree_items : list string;
  playlist_mode_var : string;
  previous_playlist_mode : string;
  expand_playlists : bool;
  random_list : bool;
  true_random_on_skip : bool;
  smart_shuffle : bool;
  shuffle_within_playlists : bool;
  sequential_playlists : bool
}.

Definition set_main_queue (q : list string) (s : state) : state :=
  {| is_monitoring := is_monitoring s; main_queue := q;
     main_queue_index := main_queue_index s;
     current_playlist_videos := current_playlist_videos s;
     current_playlist_index := current_playlist_index s;
     current_url := current_url s; skip_event := skip_event s;
     all_tree_items := all_tree_items s;
     playlist_mode_var := playlist_mode_var s;
     previous_playlist_mode := previous_playlist_mode s;
     expand_playlists := expand_playlists s; random_list := random_list s;
     true_random_on_skip := true_random_on_skip s;
     smart_shuffle := smart_shuffle s;
     shuffle_within_playlists := shuffle_within_playlists s;
     sequential_playlists := sequential_playlists s |}.

(** Assigning an index also sets [skip_event] in every place that does it. *)
Definition jump_main (i : Z) (s : state) : state :=
  {| is_monitoring := is_monitoring s; main_queue := main_queue s;
     main_queue_index := i;
     current_playlist_videos := current_playlist_videos s;
     current_playlist_index := current_playlist_index s;
     current_url := current_url s; skip_event := true;
     all_tree_items := all_tree_items s;
     playlist_mode_var := playlist_mode_var s;
     previous_playlist_mode := previous_playlist_mode s;
     expand_playlists := expand_playlists s; random_list := random_list s;
     true_random_on_skip := true_random_on_skip s;
     smart_shuffle := smart_shuffle s;
     shuffle_within_playlists := shuffle_within_playlists s;
     sequential_playlists := sequential_playlists s |}.

Definition jump_playlist (i : Z) (s : state) : state :=
  {| is_monitoring := is_monitoring s; main_queue := main_queue s;
     main_queue_index := main_queue_index s;
     current_playlist_videos := current_playlist_videos s;
     current_playlist_index := i;
     current_url := current_url s; skip_event := true;
     all_tree_items := all_tree_items s;
     playlist_mode_var := playlist_mode_var s;
     previous_playlist_mode := previous_playlist_mode s;
     expand_playlists := expand_playlists s; random_list := random_list s;
     true_random_on_skip := true_random_on_skip s;
     smart_shuffle := smart_shuffle s;
     shuffle_within_playlists := shuffle_within_playlists s;
     sequential_playlists := sequential_playlists s |}.

Definition set_mode_vars (var previous : string) (s : state) : state :=
  {| is_monitoring := is_monitoring s; main_queue := main_queue s;
     main_queue_index := main_queue_index s;
     current_playlist_videos := current_playlist_videos s;
     current_playlist_index := current_playlist_index s;
     current_url := current_url s; skip_event := skip_event s;
     all_tree_items := all_tree_items s;
     playlist_mode_var := var;
     previous_playlist_mode := previous;
     expand_playlists := expand_playlists s; random_list := random_list s;
     true_random_on_skip := true_random_on_skip s;
     smart_shuffle := smart_shuffle s;
     shuffle_within_playlists := shuffle_within_playlists s;
     sequential_playlists := sequential_playlists s |}.

Definition set_flags (ex rl tr sm sw sq : bool) (s : state) : state :=
  {| is_monitoring := is_monitoring s; main_queue := main_queue s;
     main_queue_index := main_queue_index s;
     current_playlist_videos := current_playlist_videos s;
     current_playlist_index := current_playlist_index s;
     current_url := current_url s; skip_event := skip_event s;
     all_tree_items := all_tree_items s;
     playlist_mode_var := playlist_mode_var s;
     previous_playlist_mode := previous_playlist_mode s;
     expand_playlists := ex; random_list := rl;
     true_random_on_skip := tr;
     smart_shuffle := sm;
     shuffle_within_playlists := sw;
     sequential_playlists := sq |}.

Definition len (l : list string) : Z := Z.of_nat (List.length l).

Definition nonempty (l : list string) : bool :=
  match l with [] => false | _ => true end.

(** ** Building the queue at start: the ordering part of [monitor_loop] *)

Definition is_finished (st : Ledger.stats) (url : string) : bool :=
  match Ledger.get_saved_timestamp_status st url with
  | Ledger.Finished => true
  | _ => false
  end.

Definition build_queue (sh : shuffler) (st : Ledger.stats)
    (smart_shuffle_var random_list_var : bool) (urls_to_monitor : list string)
  : list string :=
  let main_queue := urls_to_monitor in
  if smart_shuffle_var then
    let watched := filter (is_finished st) main_queue in
    let unwatched := filter (fun url => negb (is_finished st url)) main_queue in
    sh unwatched ++ watched
  else if random_list_var then sh main_queue
  else main_queue.

(** ** Navigation *)

(** [max(0, min(new_index, len(queue) - 1))] *)
Definition clamp (new_index : Z) (queue : list string) : Z :=
  Z.max 0 (Z.min new_index (len queue - 1)).

Definition skip_videos (count : Z) (s : state) : state :=
  if negb (is_monitoring s) then s
  else if nonempty (current_playlist_videos s) then
    let new_index := clamp (current_playlist_index s + count) (current_playlist_videos s) in
    if (new_index =? current_playlist_index s)%Z then s
    else jump_playlist (new_index - 1) s
  else if nonempty (main_queue s) then
    let new_index := clamp (main_queue_index s + count) (main_queue s) in
    if (new_index =? main_queue_index s)%Z then s
    else jump_main (new_index - 1) s
  else s.

Definition next_video (s : state) : state :=
  if negb (is_monitoring s) then s
  else if nonempty (current_playlist_videos s)
          && (current_playlist_index s <? len (current_playlist_videos s) - 1)%Z then
    jump_playlist (current_playlist_index s + 1) s
  else if nonempty (main_queue s)
          && (main_queue_index s <? len (main_queue s) - 1)%Z then
    jump_main (main_queue_index s) s
  else s.

Definition previous_video (s : state) : state :=
  if negb (is_monitoring s) then s
  else if nonempty (current_playlist_videos s) && (0 <? current_playlist_index s)%Z then
    jump_playlist (current_playlist_index s - 1) s
  else if nonempty (main_queue s) && (0 <? main_queue_index s)%Z then
    jump_main (main_queue_index s - 2) s
  else s.

(** [on_jump_entry]; [target_num] is [int(self.jump_entry_var.get())], or
    [None] when that raises [ValueError]. *)
Definition on_jump_entry (target_num : option Z) (s : state) : state :=
  if negb (is_monitoring s) then s
  else
    match target_num with
    | None => s
    | Some target_num =>
        if nonempty (current_playlist_videos s) then
          if (1 <=? target_num)%Z && (target_num <=? len (current_playlist_videos s))%Z
          then jump_playlist (target_num - 2) s
          else s
        else if nonempty (main_queue s) then
          if (1 <=? target_num)%Z && (target_num <=? len (main_queue s))%Z
          then jump_main (target_num - 2) s
          else s
        else s
    end.

Inductive command :=
  | Next
  | Previous
  | Skip (count : Z)
  | Jump (target_num : option Z).

Definition apply (c : command) (s : state) : state :=
  match c with
  | Next => next_video s
  | Previous => previous_video s
  | Skip count => skip_videos count s
  | Jump t => on_jump_entry t s
  end.

Definition apply_all (cs : list command) (s : state) : state :=
  fold_left (fun s c => apply c s) cs s.

(** ** Changing the mode during playback *)

(** [original_urls.index(current)]: the first position, or [None] for
    [ValueError]. *)
Fixpoint index_of (x : string) (l : list string) : option nat :=
  match l with
  | [] => None
  | y :: l' =>
      if String.eqb y x then Some O
      else option_map S (index_of x l')
  end.

Definition rebuild_queue_dynamically (sh : shuffler) (new_mode : string) (s : state)
  : state :=
  let original_urls := all_tree_items s in
  match current_url s with
  | None => s
  | Some cur =>
      if negb (nonempty (main_queue s)) || String.eqb cur "" then s
      else
        let played_urls := Slice.upto (main_queue s) (main_queue_index s) in
        let rest := Slice.from (main_queue s) (main_queue_index s + 1) in
        let upcoming_urls :=
          if String.eqb new_mode "Sequential" then
            match index_of cur original_urls with
            | Some i => skipn (S i) original_urls
            | None => rest
            end
          else if String.eqb new_mode "Shuffle All"
                  || String.eqb new_mode "Smart Shuffle" then
            match index_of cur original_urls with
            | Some i => sh (skipn (S i) original_urls)
            | None => sh rest
            end
          else rest in
        set_main_queue (played_urls ++ [cur] ++ upcoming_urls) s
  end.

(** What [on_playlist_mode_change] shows besides changing the state. *)
Inductive notice :=
  | Quiet
  | ModeChangeRequired.   (* the "cannot be switched to during playback" box *)

Definition preset (new_mode : string) (s : state) : state :=
  if String.eqb new_mode "Custom" then s
  else if String.eqb new_mode "Sequential" then set_flags true false false false false true s
  else if String.eqb new_mode "Shuffle All" then set_flags true true false false false false s
  else if String.eqb new_mode "True Random" then set_flags false false true false false false s
  else if String.eqb new_mode "Smart Shuffle" then set_flags false false false true false false s
  else set_flags false false false false false false s.

Definition on_playlist_mode_change (sh : shuffler) (s : state) : state * notice :=
  let new_mode := playlist_mode_var s in
  if is_monitoring s && String.eqb new_mode "True Random" then
    (set_mode_vars (previous_playlist_mode s) (previous_playlist_mode s) s,
     ModeChangeRequired)
  else
    let s1 := if is_monitoring s then rebuild_queue_dynamically sh new_mode s else s in
    (preset new_mode (set_mode_vars new_mode new_mode s1), Quiet).

End Player.

(* ================================================================== *)
(** * The silence monitor: [preview_callback]                          *)
(* ================================================================== *)

Module Monitor.

(** The fields of [self] the callback keeps for the trigger and for the
    debounced indicator.  What it keeps for drawing only ([audio_level],
    [audio_buffer], [last_countdown_update]) and the session clock it starts
    with [monitored_time_started] are left out. *)
Record state := {
  last_silence_time : Q;
  last_sound_time : Q;
  silence_start_time : option Q;
  monitored_time_started : bool
}.

(** What one callback reads: the clock (one reading for the whole
    callback), the norm of the gain-scaled block, and the settings and
    flags of [self] at that moment. *)
Record sample := {
  now : Q;
  volume_norm : Q;
  silence_threshold : Q;      (* [silence_threshold_var], the noise gate *)
  sound_threshold : Q;        (* [sound_threshold_var] *)
  silence_minutes : Q;
  afk_enabled : bool;
  is_afk : bool;
  is_monitoring : bool;
  is_paused : bool
}.

(** What the callback schedules on the main thread when the silence lasted
    long enough. *)
Inductive trigger :=
  | Advance       (* [handle_silence_trigger] *)
  | Start.        (* [start_monitoring_with_resume] *)

Definition below_floor (x : sample) : bool :=
  if Qlt_le_dec (volume_norm x) (silence_threshold x) then true else false.

Definition afk_gate (x : sample) : bool := afk_enabled x && is_afk x.

Definition silence_threshold_seconds (x : sample) : Q := silence_minutes x * 60.

(** The state after the callback and the trigger it scheduled, if any. *)
Definition preview_callback (x : sample) (s : state) : state * option trigger :=
  let lsil := if below_floor x then now x else last_silence_time s in
  let lsnd := if below_floor x then last_sound_time s else now x in
  let '(start, fired) :=
    if below_floor x then
      match silence_start_time s with
      | None => (Some (now x), None)
      | Some t0 =>
          let elapsed_silence := now x - t0 in
          let remaining_time := silence_threshold_seconds x - elapsed_silence in
          if Qle_bool remaining_time 0 then
            if afk_gate x then (Some (now x), None)
            else
              (None,
               if is_monitoring x && negb (is_paused x) then Some Advance
               else if negb (is_monitoring x) then Some Start
               else None)
          else (Some t0, None)
      end
    else (None, None) in
  let started :=
    if is_monitoring x && negb (is_paused x) then
      if negb (monitored_time_started s)
         && (if Qlt_le_dec (sound_threshold x) (volume_norm x) then true else false)
      then true else monitored_time_started s
    else monitored_time_started s in
  ({| last_silence_time := lsil; last_sound_time := lsnd;
      silence_start_time := start; monitored_time_started := started |},
   fired).

(** Feeding a stream of blocks: the final state and what each block fired. *)
Fixpoint run (xs : list sample) (s : state) : state * list (option trigger) :=
  match xs with
  | [] => (s, [])
  | x :: xs' =>
      let (s1, f) := preview_callback x s in
      let (s2, fs) := run xs' s1 in
      (s2, f :: fs)
  end.

End Monitor.

(* ================================================================== *)
(** * More of the ledger: [update_stats], [mark_as_unwatched]          *)
(* ================================================================== *)

Module Stats.
Import Ledger.


(** [d.get(k, 0)] on a day's counters. *)
Definition counter (k : string) (counters : Dict.dict Q) : Q :=
  match Dict.get k counters with
  | Some v => v
  | None => 0
  end.

(** [update_stats]: today's entry is made a dict when it is missing or is
    not one, its counters are advanced and it is given a ['timestamps']
    dict when it has none. *)
Definition update_stats (today : string) (time_elapsed : Q) (triggered skipped : bool)
    (st : stats) : stats :=
  let '(counters, ts) :=
    match Dict.get today st with
    | Some (Day counters ts) => (counters, ts)
    | _ => ([], None)
    end in
  let c1 := Dict.set "total_monitored_time"
              (counter "total_monitored_time" counters + time_elapsed) counters in
  let c2 := if triggered
            then Dict.set "trigger_count" (counter "trigger_count" c1 + 1) c1 else c1 in
  let c3 := if skipped
            then Dict.set "video_skips" (counter "video_skips" c2 + 1) c2 else c2 in
  Dict.set today (Day c3 (Some (timestamps_of ts))) st.


(** What [get_status_emoji] shows for an item. *)
Inductive badge :=
  | Watched
  | InProgress
  | Unwatched.

Definition get_status_emoji (st : stats) (url : string) : badge :=
  match get_saved_timestamp_status st url with
  | Finished => Watched
  | Position v => if Qlt_le_dec 0 v then InProgress else Unwatched
  | NoRecord => Unwatched
  end.

End Stats.

(* ================================================================== *)
(** * The debounced indicator: [update_flicker_free_indicator]         *)
(* ================================================================== *)

Module Indicator.

(** [self.silence_debounce_time] *)
Definition silence_debounce_time : Q := 2 # 10.

(** One run of [update_flicker_free_indicator] at time [now]:
    [current_indicator_state] is [true] for "silence detected". *)
Definition update_flicker_free_indicator (now : Q) (m : Monitor.state)
    (current_indicator_state : bool) : bool :=
  if negb current_indicator_state
     && (if Qlt_le_dec silence_debounce_time (now - Monitor.last_sound_time m)
         then true else false)
  then true
  else if current_indicator_state
          && (if Qlt_le_dec silence_debounce_time (now - Monitor.last_silence_time m)
              then true else false)
  then false
  else current_indicator_state.

(** The audio callback and the indicator's timer share the monitor's
    fields; what happens to them is a sequence of blocks and of runs of
    the indicator. *)
Inductive event :=
  | Block (x : Monitor.sample)
  | Tick (now : Q).

Definition time_of (e : event) : Q :=
  match e with
  | Block x => Monitor.now x
  | Tick t => t
  end.

Definition step (e : event) (st : Monitor.state * bool) : Monitor.state * bool :=
  match e with
  | Block x => (fst (Monitor.preview_callback x (fst st)), snd st)
  | Tick t => (fst st, update_flicker_free_indicator t (fst st) (snd st))
  end.

Definition run (es : list event) (st : Monitor.state * bool) : Monitor.state * bool :=
  fold_left (fun st e => step e st) es st.

End Indicator.

(* ================================================================== *)
(** * The AFK detector: the loop of [afk_thread_func]                  *)
(* ================================================================== *)

Module Afk.

Record state := {
  is_afk : bool;
  was_afk : bool
}.

(** What one pass of the loop reads.  [idle_seconds] is the time since the
    last input ([None] when [GetLastInputInfo] fails, which leaves
    [is_afk] as it is). *)
Record observation := {
  afk_enabled : bool;
  idle_seconds : option Q;
  afk_timeout_minutes : Q;
  is_monitoring : bool;
  is_paused : bool;
  show_afk_status : bool
}.

(** What one pass schedules on the main thread. *)
Inductive action :=
  | PauseMonitoring                (* [self.pause_monitoring] *)
  | SetStatusAfk                   (* [set_status("Status: AFK (Playback Paused)")] *)
  | RestoreStatus                  (* [set_status(self.pre_afk_status_text)] *)
  | UpdateTrayIcon.

Definition detect (o : observation) (s : state) : bool :=
  if afk_enabled o then
    match idle_seconds o with
    | Some idle =>
        if Qlt_le_dec (afk_timeout_minutes o * 60) idle then true else false
    | None => is_afk s
    end
  else false.

(** One pass of the loop that runs to its end: the body is wrapped in a
    [try] that logs any exception and goes on with the next pass, and a
    pass cut short that way is not one of these. *)
Definition pass (o : observation) (s : state) : state * list action :=
  let afk := detect o s in
  if afk && negb (was_afk s) then
    ({| is_afk := afk; was_afk := true |},
     (if is_monitoring o && negb (is_paused o) then [PauseMonitoring] else [])
     ++ (if show_afk_status o then [SetStatusAfk] else [])
     ++ [UpdateTrayIcon])
  else if negb afk && was_afk s then
    ({| is_afk := afk; was_afk := false |},
     (if show_afk_status o then [RestoreStatus] else []) ++ [UpdateTrayIcon])
  else ({| is_afk := afk; was_afk := was_afk s |}, []).

(** The passes of the loop, with what each scheduled. *)
Fixpoint passes (os : list observation) (s : state) : state * list (list action) :=
  match os with
  | [] => (s, [])
  | o :: os' =>
      let (s1, a) := pass o s in
      let (s2, acts) := passes os' s1 in
      (s2, a :: acts)
  end.

Definition requests_pause (a : list action) : bool :=
  existsb (fun x => match x with PauseMonitoring => true | _ => false end) a.

End Afk.

(* ================================================================== *)
(** * Pausing and resuming: the session clock                          *)
(* ================================================================== *)

Module Session.

Record state := {
  is_monitoring : bool;
  is_paused : bool;
  pause_start_time : option Q;
  monitoring_paused_time : Q;
  monitoring_start_time : option Q
}.

(** What is sent to the player. *)
Inductive command :=
  | MpvSetPause (paused : bool)      (* [{"command": ["set_property", "pause", b]}] *)
  | VideoCall (action : string).     (* [v.pause()] / [v.play()] in the page *)

(** [control_mpv(command)] for ["pause"] and ["play"]: nothing without a
    process or a socket path. *)
Definition control_mpv (h : Backend.handles) (command_name : string) : list command :=
  match Backend.mpv_process h, Backend.mpv_ipc_path h with
  | Some _, true => [MpvSetPause (String.eqb command_name "pause")]
  | _, _ => []
  end.

Definition control_video_playback (h : Backend.handles) (action : string) : list command :=
  if Backend.browser h then [VideoCall action] else [].

(** [if self.mpv_process: control_mpv(a) elif self.browser: control_video_playback(a)] *)
Definition control (h : Backend.handles) (action : string) : list command :=
  match Backend.mpv_process h with
  | Some _ => control_mpv h action
  | None => control_video_playback h action
  end.

(** [if self.pause_start_time]: [None] and [0] are false. *)
Definition truthy (t : option Q) : bool :=
  match t with
  | Some v => negb (Qeq_bool v 0)
  | None => false
  end.

(** [pause_monitoring]: the state, the commands sent, and whether
    [save_current_timestamp(); save_stats()] ran. *)
Definition pause_monitoring (sync_only : bool) (now : Q) (h : Backend.handles) (s : state)
  : state * list command * bool :=
  if is_monitoring s && negb (is_paused s) then
    ({| is_monitoring := is_monitoring s; is_paused := true;
        pause_start_time := Some now;
        monitoring_paused_time := monitoring_paused_time s;
        monitoring_start_time := monitoring_start_time s |},
     if sync_only then [] else control h "pause",
     true)
  else (s, [], false).

Definition resume_monitoring (sync_only : bool) (now : Q) (h : Backend.handles) (s : state)
  : state * list command :=
  if is_monitoring s && is_paused s then
    ({| is_monitoring := is_monitoring s; is_paused := false;
        pause_start_time := pause_start_time s;
        monitoring_paused_time :=
          if truthy (pause_start_time s)
          then monitoring_paused_time s
               + (now - match pause_start_time s with Some t => t | None => 0 end)
          else monitoring_paused_time s;
        monitoring_start_time := monitoring_start_time s |},
     if sync_only then [] else control h "play")
  else (s, []).

(** The seconds [update_timer] shows at time [now]; [None] when it shows
    nothing or "Loading...". *)
Definition update_timer (now : Q) (s : state) : option Q :=
  if is_monitoring s && negb (is_paused s) then
    match monitoring_start_time s with
    | Some t0 => Some (now - t0 - monitoring_paused_time s)
    | None => None
    end
  else None.

(** [toggle_play_pause]; [None] when it starts playback instead. *)
Definition toggle_play_pause (now : Q) (h : Backend.handles) (s : state)
  : option (state * list command) :=
  if negb (is_monitoring s) then None
  else if is_paused s then Some (resume_monitoring false now h s)
  else Some (fst (pause_monitoring false now h s)).

End Session.

(* ================================================================== *)
(** * The backlog: item types, expansion, "play next", starting        *)
(* ================================================================== *)

Module Backlog.
Import CleanUrl.

Definition has (needle url : string) : bool :=
  contains (list_ascii_of_string needle) (list_ascii_of_string url).

Definition startswith (p url : string) : bool :=
  match strip_prefix (list_ascii_of_string p) (list_ascii_of_string url) with
  | Some _ => true
  | None => false
  end.

Inductive url_type :=
  | Video
  | Playlist
  | Folder
  | LocalFile
  | Unknown.

(** What [os.path] says about a path. *)
Record path_facts := { isdir : bool; isfile : bool }.

Definition is_bilibili_playlist (url : string) : bool :=
  has "bilibili.com" url
  && (has "/favlist" url || has "/medialist/" url || has "collectiondetail" url
      || has "/lists/" url || has "videopod.episodes" url
      || has "?type=season" url || has "?type=series" url).

Definition is_http (url : string) : bool :=
  startswith "http://" url || startswith "https://" url.

Definition get_url_type (treat_playlists_as_videos : bool) (fs : string -> path_facts)
    (url : string) : url_type :=
  let listed := has "youtube.com/playlist" url || is_bilibili_playlist url in
  if treat_playlists_as_videos && listed then Video
  else if listed then Playlist
  else if is_http url then Video
  else if isdir (fs url) then Folder
  else if isfile (fs url) then LocalFile
  else Unknown.

Definition is_playlist (treat : bool) (fs : string -> path_facts) (url : string) : bool :=
  match get_url_type treat fs url with Playlist => true | _ => false end.

(** What the headless scrape of the first playlist ends in. *)
Inductive expansion :=
  | Scraped (videos : list string)
  | ScrapeFailed.                  (* any exception *)

(** [not videos or (len(videos) == 1 and videos[0] == url)] *)
Definition no_expansion (videos : list string) (url : string) : bool :=
  match videos with
  | [] => true
  | [v] => String.eqb v url
  | _ => false
  end.

Definition always_expand_playlists (treat : bool) (fs : string -> path_facts)
    (scrape : string -> expansion) (urls : list string) : list string :=
  match urls with
  | [] => []
  | first_url :: rest =>
      if is_playlist treat fs first_url && negb treat then
        match scrape first_url with
        | Scraped videos =>
            if no_expansion videos first_url then urls else videos ++ rest
        | ScrapeFailed => urls
        end
      else urls
  end.




(** How [start_monitoring] ends. *)
Inductive start_outcome :=
  | NoUrls                                    (* "Please add at least one URL" *)
  | AllWatched                                (* "All items have been watched" *)
  | Started (ignore_timestamps_for_session : bool).

Definition start_monitoring (from_beginning treat : bool) (fs : string -> path_facts)
    (st : Ledger.stats) (initial_urls : list string) : start_outcome :=
  match initial_urls with
  | [] => NoUrls
  | _ =>
      if from_beginning then Started true
      else
        let playable_videos :=
          filter (fun url => negb (Player.is_finished st url)) initial_urls in
        if negb (Player.nonempty playable_videos)
           && negb (existsb (is_playlist treat fs) initial_urls)
        then AllWatched
        else Started false
  end.

(** [self.main_queue_index += 1] at the end of a pass of the loop of
    [monitor_loop]. *)
Definition loop_increment (s : Player.state) : Player.state :=
  {| Player.is_monitoring := Player.is_monitoring s;
     Player.main_queue := Player.main_queue s;
     Player.main_queue_index := Player.main_queue_index s + 1;
     Player.current_playlist_videos := Player.current_playlist_videos s;
     Player.current_playlist_index := Player.current_playlist_index s;
     Player.current_url := Player.current_url s;
     Player.skip_event := Player.skip_event s;
     Player.all_tree_items := Player.all_tree_items s;
     Player.playlist_mode_var := Player.playlist_mode_var s;
     Player.previous_playlist_mode := Player.previous_playlist_mode s;
     Player.expand_playlists := Player.expand_playlists s;
     Player.random_list := Player.random_list s;
     Player.true_random_on_skip := Player.true_random_on_skip s;
     Player.smart_shuffle := Player.smart_shuffle s;
     Player.shuffle_within_playlists := Player.shuffle_within_playlists s;
     Player.sequential_playlists := Player.sequential_playlists s |}.

End Backlog.

(* ================================================================== *)
(** * The playing loops: [monitor_loop], [handle_playlist_sequential],
      [handle_single_video], [handle_silence_trigger]                  *)
(* ================================================================== *)

Module Loop.
Import Player.

(** [l[i]] with Python's negative indices; [None] is [IndexError]. *)
Definition py_nth (l : list string) (i : Z) : option string :=
  if (i <? 0)%Z then
    if (i + len l <? 0)%Z then None else nth_error l (Z.to_nat (i + len l))
  else nth_error l (Z.to_nat i).

(** A state that differs in the fields the loops assign. *)
Definition assign (s : state) (monitoring : bool) (index : Z)
    (playlist : list string) (playlist_index : Z) (url : option string) (skip : bool)
  : state :=
  {| is_monitoring := monitoring; main_queue := main_queue s;
     main_queue_index := index;
     current_playlist_videos := playlist;
     current_playlist_index := playlist_index;
     current_url := url; skip_event := skip;
     all_tree_items := all_tree_items s;
     playlist_mode_var := playlist_mode_var s;
     previous_playlist_mode := previous_playlist_mode s;
     expand_playlists := expand_playlists s; random_list := random_list s;
     true_random_on_skip := true_random_on_skip s;
     smart_shuffle := smart_shuffle s;
     shuffle_within_playlists := shuffle_within_playlists s;
     sequential_playlists := sequential_playlists s |}.

(** What the loops work on: the player's fields, [playlist_exhausted] and
    the ledger. *)
Record session := {
  player : state;
  playlist_exhausted : bool;
  stats : Ledger.stats
}.

Definition with_player (w : session) (s : state) : session :=
  {| player := s; playlist_exhausted := playlist_exhausted w; stats := stats w |}.

(** What can happen on the other threads while a video is handled. *)
Inductive happening :=
  | Nav (c : command)                  (* a navigation button, key or tray entry *)
  | SilenceTrigger (is_paused : bool)  (* [handle_silence_trigger], with [is_paused] then *)
  | Stop.                              (* [stop_monitoring] *)

(** [handle_silence_trigger].  Loading the video it moves to is not part
    of the state kept here. *)
Definition handle_silence_trigger (is_paused : bool) (w : session) : session :=
  let s := player w in
  if is_monitoring s && negb is_paused then
    if sequential_playlists s && nonempty (current_playlist_videos s) then
      let i := (current_playlist_index s + 1)%Z in
      if (len (current_playlist_videos s) <=? i)%Z then
        {| player := assign s (is_monitoring s) (main_queue_index s)
                       (current_playlist_videos s) i (current_url s) (skip_event s);
           playlist_exhausted := true; stats := stats w |}
      else
        with_player w
          (assign s (is_monitoring s) (main_queue_index s) (current_playlist_videos s) i
             (match py_nth (current_playlist_videos s) i with
              | Some u => Some u
              | None => current_url s
              end)
             (skip_event s))
    else with_player w (next_video s)
  else w.

Definition happen (e : happening) (w : session) : session :=
  match e with
  | Nav c => with_player w (apply c (player w))
  | SilenceTrigger is_paused => handle_silence_trigger is_paused w
  | Stop =>
      let s := player w in
      with_player w
        (assign s false (main_queue_index s) (current_playlist_videos s)
           (current_playlist_index s) (current_url s) (skip_event s))
  end.

(** What goes on while one video is handled: the happenings on the other
    threads, and what the saves and statistics updates of the handler make
    of the ledger. *)
Record episode := {
  during : list happening;
  ledger_after : Ledger.stats -> Ledger.stats
}.

Definition quiet : episode := {| during := []; ledger_after := fun st => st |}.

Definition next_episode (eps : list episode) : episode * list episode :=
  match eps with
  | [] => (quiet, [])
  | ep :: eps' => (ep, eps')
  end.

(** [handle_single_video]: it takes the video as the current one, empties
    the current playlist, clears the skip event and waits; it returns when
    the video ends, a skip is asked for or playback stops. *)
Definition handle_single_video (video_url : string) (ep : episode) (w : session)
  : session :=
  let s := player w in
  let started :=
    with_player w
      (assign s (is_monitoring s) (main_queue_index s) [] 0 (Some video_url) false) in
  let ended := fold_left (fun w e => happen e w) (during ep) started in
  {| player := player ended; playlist_exhausted := playlist_exhausted ended;
     stats := ledger_after ep (stats ended) |}.

(** The [while] of [handle_playlist_sequential]: the session at its end,
    the videos handled, and the episodes left. *)
Fixpoint playlist_loop (fuel : nat) (ignore_timestamps_for_session : bool)
    (eps : list episode) (w : session) : session * list string * list episode :=
  match fuel with
  | O => (w, [], eps)
  | S fuel' =>
      let s := player w in
      if (current_playlist_index s <? len (current_playlist_videos s))%Z
         && is_monitoring s && negb (playlist_exhausted w) then
        match py_nth (current_playlist_videos s) (current_playlist_index s) with
        | None => (w, [], eps)
        | Some video_url =>
            if negb ignore_timestamps_for_session && is_finished (stats w) video_url then
              playlist_loop fuel' ignore_timestamps_for_session eps
                (with_player w
                   (assign s (is_monitoring s) (main_queue_index s)
                      (current_playlist_videos s) (current_playlist_index s + 1)
                      (current_url s) (skip_event s)))
            else
              let w1 := with_player w
                          (assign s (is_monitoring s) (main_queue_index s)
                             (current_playlist_videos s) (current_playlist_index s)
                             (Some video_url) (skip_event s)) in
              let (ep, eps') := next_episode eps in
              let w2 := handle_single_video video_url ep w1 in
              let s2 := player w2 in
              let w3 := with_player w2
                          (assign s2 (is_monitoring s2) (main_queue_index s2)
                             (current_playlist_videos s2) (current_playlist_index s2 + 1)
                             (current_url s2) (skip_event s2)) in
              let '(w4, played, eps'') :=
                playlist_loop fuel' ignore_timestamps_for_session eps' w3 in
              (w4, video_url :: played, eps'')
        end
      else (w, [], eps)
  end.

(** The fields [handle_playlist_sequential] resets when it is done. *)
Definition leave_playlist (w : session) : session :=
  let s := player w in
  {| player := assign s (is_monitoring s) (main_queue_index s) [] 0
                 (current_url s) (skip_event s);
     playlist_exhausted := false; stats := stats w |}.

(** [handle_playlist_sequential].  [responsive] is what
    [is_browser_responsive] answers and [scraped] what the scrape of the
    playlist ends in. *)
Definition handle_playlist_sequential (fuel : nat) (sh : shuffler)
    (ignore_timestamps_for_session responsive : bool) (scraped : Backlog.expansion)
    (playlist_url : string) (eps : list episode) (w : session)
  : session * list string * list episode :=
  if negb responsive then (w, [], eps)
  else
    match scraped with
    | Backlog.ScrapeFailed => (leave_playlist w, [], eps)
    | Backlog.Scraped videos =>
        if Backlog.no_expansion videos playlist_url then
          let (ep, eps') := next_episode eps in
          (handle_single_video playlist_url ep w, [playlist_url], eps')
        else
          let s := player w in
          let videos := if shuffle_within_playlists s then sh videos else videos in
          let w1 := {| player := assign s (is_monitoring s) (main_queue_index s)
                                   videos 0 (current_url s) (skip_event s);
                       playlist_exhausted := false; stats := stats w |} in
          let '(w2, played, eps') :=
            playlist_loop fuel ignore_timestamps_for_session eps w1 in
          (leave_playlist w2, played, eps')
    end.



End Loop.

(* ================================================================== *)
(** * Predicates of the specification                                  *)
(* ================================================================== *)

(** The shape of every text the two url patterns can match. *)
Definition shaped (host : CleanUrl.text) (cls : ascii -> bool) (m : CleanUrl.text) : Prop :=
  exists sch www tail,
    (sch = [] \/ sch = CleanUrl.T "s") /\ (www = [] \/ www = CleanUrl.T "www.") /\
    tail <> [] /\ forallb cls tail = true /\
    m = CleanUrl.T "http" ++ sch ++ CleanUrl.T "://" ++ www ++ host ++ tail.

(** [day] is a bucket of the ledger that records [v] for [url]. *)
Definition holds (st : Ledger.stats) (url day : string) (v : Q) : Prop :=
  day <> "url_stats"%string /\
  exists counters ts,
    Dict.get day st = Some (Ledger.Day counters ts) /\
    Dict.get url (Ledger.timestamps_of ts) = Some v.

(** The bounds the stored indices keep: an index may be one below the
    first position, because [skip_videos], [on_jump_entry] and
    [previous_video] store the target minus one for the monitor loop to
    increment. *)
Definition in_bounds (s : Player.state) : Prop :=
  (Player.main_queue s <> [] ->
   (-1 <= Player.main_queue_index s < Player.len (Player.main_queue s))%Z) /\
  (Player.current_playlist_videos s <> [] ->
   (-1 <= Player.current_playlist_index s
    < Player.len (Player.current_playlist_videos s))%Z).

(** The bounds of the specification. *)
Definition in_range (s : Player.state) : Prop :=
  (Player.main_queue s <> [] ->
   (0 <= Player.main_queue_index s < Player.len (Player.main_queue s))%Z) /\
  (Player.current_playlist_videos s <> [] ->
   (0 <= Player.current_playlist_index s
    < Player.len (Player.current_playlist_videos s))%Z).

(** Every start time the monitor holds was read from the clock at or after
    [t]. *)
Definition started_since (t : Q) (s : Monitor.state) : Prop :=
  forall t0, Monitor.silence_start_time s = Some t0 -> t <= t0.

(** A block on which the trigger is held back. *)
Definition held_back (x : Monitor.sample) : Prop :=
  Monitor.afk_gate x = true \/ (Monitor.is_monitoring x = true /\ Monitor.is_paused x = true).

(** A block on which a silence that lasted long enough does fire. *)
Definition eligible (x : Monitor.sample) : Prop :=
  Monitor.below_floor x = true /\ Monitor.afk_gate x = false /\
  (Monitor.is_monitoring x = true -> Monitor.is_paused x = false).

(** Whether a navigation command has an effect on a main queue that is
    playing item [main_queue_index], and the position it asks for. *)
Definition effective (c : Player.command) (s : Player.state) : bool :=
  let i := Player.main_queue_index s in
  let q := Player.main_queue s in
  match c with
  | Player.Next => (i <? Player.len q - 1)%Z
  | Player.Previous => (0 <? i)%Z
  | Player.Skip count => negb (Player.clamp (i + count) q =? i)%Z
  | Player.Jump (Some t) => ((1 <=? t) && (t <=? Player.len q))%Z
  | Player.Jump None => false
  end.

Definition target (c : Player.command) (s : Player.state) : Z :=
  let i := Player.main_queue_index s in
  match c with
  | Player.Next => (i + 1)%Z
  | Player.Previous => (i - 1)%Z
  | Player.Skip count => Player.clamp (i + count) (Player.main_queue s)
  | Player.Jump (Some t) => (t - 1)%Z
  | Player.Jump None => i
  end.

(** A pattern whose matches begin where it is tried. *)
Definition prefixing (k : CleanUrl.pattern) : Prop :=
  forall s m, k s = Some m -> exists r, s = m ++ r.

(** A video address: scheme, optional [www.], the host and path that the
    pattern names, and the video id. *)
Definition video_url (secure www : bool) (host id : string) : string :=
  ("http" ++ (if secure then "s" else "") ++ "://" ++ (if www then "www." else "")
   ++ host ++ id)%string.

(** The text does not go on with a character of the class. *)
Definition stops (cls : ascii -> bool) (rest : string) : Prop :=
  match rest with
  | EmptyString => True
  | String c _ => cls c = false
  end.


(* ================================================================== *)
(** * Sample ledgers, sessions and sample blocks                       *)
(* ================================================================== *)

Definition ledger_2024 : Ledger.stats :=
  [ ("2024-03-01", Ledger.Day [("total_monitored_time", 600)]
                     (Some [("https://www.bilibili.com/video/BV1xx411c7mD", 125 # 2)]));
    ("url_stats", Ledger.NotADict);
    ("2024-03-02", Ledger.Day [] None) ]%string.

Definition mpv_running : Backend.handles :=
  {| Backend.mpv_process := Some false; Backend.mpv_ipc_path := true;
     Backend.browser := false |}.

Definition mpv_exited : Backend.handles :=
  {| Backend.mpv_process := Some true; Backend.mpv_ipc_path := true;
     Backend.browser := false |}.

Definition all_timeouts : Backend.finished_probe :=
  {| Backend.position_reply := Backend.IpcTimeout;
     Backend.position_script := Backend.ScriptNull;
     Backend.duration_reply := Backend.IpcTimeout;
     Backend.duration_script := Backend.ScriptNull;
     Backend.ended_script := Backend.ScriptNull |}.

Definition three_playing_second : Player.state :=
  {| Player.is_monitoring := true;
     Player.main_queue := ["a.mp4"; "b.mp4"; "c.mp4"]%string;
     Player.main_queue_index := 1;
     Player.current_playlist_videos := [];
     Player.current_playlist_index := 0;
     Player.current_url := Some "b.mp4"%string;
     Player.skip_event := false;
     Player.all_tree_items := ["a.mp4"; "b.mp4"; "c.mp4"]%string;
     Player.playlist_mode_var := "Custom";
     Player.previous_playlist_mode := "Custom";
     Player.expand_playlists := false; Player.random_list := false;
     Player.true_random_on_skip := false; Player.smart_shuffle := false;
     Player.shuffle_within_playlists := false;
     Player.sequential_playlists := false |}.

Definition shuffled_three : Player.state :=
  {| Player.is_monitoring := true;
     Player.main_queue := ["c.mp4"; "a.mp4"; "b.mp4"]%string;
     Player.main_queue_index := 0;
     Player.current_playlist_videos := [];
     Player.current_playlist_index := 0;
     Player.current_url := Some "c.mp4"%string;
     Player.skip_event := false;
     Player.all_tree_items := ["a.mp4"; "b.mp4"; "c.mp4"]%string;
     Player.playlist_mode_var := "Sequential";
     Player.previous_playlist_mode := "Shuffle All";
     Player.expand_playlists := true; Player.random_list := true;
     Player.true_random_on_skip := false; Player.smart_shuffle := false;
     Player.shuffle_within_playlists := false;
     Player.sequential_playlists := false |}.

Definition custom_five : Player.state :=
  {| Player.is_monitoring := true;
     Player.main_queue := ["A"; "B"; "C"; "D"; "E"]%string;
     Player.main_queue_index := 1;
     Player.current_playlist_videos := [];
     Player.current_playlist_index := 0;
     Player.current_url := Some "B"%string;
     Player.skip_event := false;
     Player.all_tree_items := ["A"; "B"; "C"; "D"; "E"]%string;
     Player.playlist_mode_var := "Sequential";
     Player.previous_playlist_mode := "Custom";
     Player.expand_playlists := false; Player.random_list := false;
     Player.true_random_on_skip := false; Player.smart_shuffle := false;
     Player.shuffle_within_playlists := false;
     Player.sequential_playlists := false |}.

Definition true_random_session : Player.state :=
  {| Player.is_monitoring := true;
     Player.main_queue := [];
     Player.main_queue_index := 0;
     Player.current_playlist_videos := [];
     Player.current_playlist_index := 0;
     Player.current_url := Some "a.mp4"%string;
     Player.skip_event := false;
     Player.all_tree_items := ["a.mp4"; "b.mp4"]%string;
     Player.playlist_mode_var := "Sequential";
     Player.previous_playlist_mode := "True Random";
     Player.expand_playlists := false; Player.random_list := false;
     Player.true_random_on_skip := true; Player.smart_shuffle := false;
     Player.shuffle_within_playlists := false;
     Player.sequential_playlists := false |}.


Definition monitor_idle : Monitor.state :=
  {| Monitor.last_silence_time := 0; Monitor.last_sound_time := 0;
     Monitor.silence_start_time := None; Monitor.monitored_time_started := true |}.

(** A block heard while playing, with the default floors [0.1] and [0.5]
    and a silence duration of five minutes. *)
Definition block (t v : Q) : Monitor.sample :=
  {| Monitor.now := t; Monitor.volume_norm := v;
     Monitor.silence_threshold := 1 # 10; Monitor.sound_threshold := 1 # 2;
     Monitor.silence_minutes := 5;
     Monitor.afk_enabled := false; Monitor.is_afk := false;
     Monitor.is_monitoring := true; Monitor.is_paused := false |}.

(* ================================================================== *)
(** * Properties                                                       *)
(* ================================================================== *)

(** ** Canonicalisation *)

Example clean_bilibili_tracking :
  CleanUrl._clean_url "https://www.bilibili.com/video/BV1xx411c7mD?spm_id_from=333.1007"
  = "https://www.bilibili.com/video/BV1xx411c7mD"%string.
Proof. reflexivity. Qed.

Example clean_youtube_tracking :
  CleanUrl._clean_url "see http://youtube.com/watch?v=dQw4w9WgXcQ&t=42s"
  = "http://youtube.com/watch?v=dQw4w9WgXcQ"%string.
Proof. reflexivity. Qed.

Example clean_unknown :
  CleanUrl._clean_url "C:\videos\a.mp4" = "C:\videos\a.mp4"%string.
Proof. reflexivity. Qed.

Section CleanUrlFacts.
Import CleanUrl.

Lemma strip_prefix_app p r : strip_prefix p (p ++ r) = Some r.
Proof.
  induction p as [|c p IH]; simpl; [reflexivity|].
  now rewrite Ascii.eqb_refl.
Qed.

Lemma strip_prefix_some p : forall s r, strip_prefix p s = Some r -> s = p ++ r.
Proof.
  induction p as [|c p IH]; simpl; intros s r H.
  - now inversion H.
  - destruct s as [|d s]; [discriminate|].
    destruct (Ascii.eqb c d) eqn:E; [|discriminate].
    apply Ascii.eqb_eq in E; subst d. f_equal. now apply IH.
Qed.

Lemma lit_some p k s m :
  lit p k s = Some m -> exists m', m = p ++ m'.
Proof.
  unfold lit. destruct (strip_prefix p s) as [r|]; [|discriminate].
  destruct (k r) as [m'|]; simpl; [|discriminate].
  intros H; inversion H; eauto.
Qed.

Lemma lit_some_k p k s m :
  lit p k s = Some m -> exists r m', k r = Some m' /\ m = p ++ m'.
Proof.
  unfold lit. destruct (strip_prefix p s) as [r|]; [|discriminate].
  destruct (k r) as [m'|] eqn:E; simpl; [|discriminate].
  intros H; inversion H; eauto.
Qed.

Lemma opt_some p k s m :
  opt p k s = Some m ->
  (exists r m', k r = Some m' /\ m = p ++ m') \/ (exists r, k r = Some m).
Proof.
  unfold opt. destruct (lit p k s) as [m0|] eqn:E.
  - intros H; inversion H; subst. left. now apply lit_some_k in E.
  - intros H. right. eauto.
Qed.

Lemma take_while_all cls s : forallb cls (take_while cls s) = true.
Proof.
  induction s as [|c s IH]; simpl; [reflexivity|].
  destruct (cls c) eqn:E; simpl; [now rewrite E|reflexivity].
Qed.

Lemma take_while_id cls s : forallb cls s = true -> take_while cls s = s.
Proof.
  induction s as [|c s IH]; simpl; [reflexivity|].
  destruct (cls c); simpl; [|discriminate]. intros H. now rewrite IH.
Qed.

Lemma plus_class_some cls s m :
  plus_class cls s = Some m -> m <> [] /\ forallb cls m = true.
Proof.
  unfold plus_class. pose proof (take_while_all cls s) as Hall.
  destruct (take_while cls s) as [|c t]; [discriminate|].
  intros H; inversion H; subst. split; [discriminate|exact Hall].
Qed.

Lemma plus_class_fix cls m :
  m <> [] -> forallb cls m = true -> plus_class cls m = Some m.
Proof.
  intros Hne Hall. unfold plus_class. rewrite (take_while_id _ _ Hall).
  destruct m; [contradiction|reflexivity].
Qed.

Lemma search_some re : forall s m, search re s = Some m -> exists t, re t = Some m.
Proof.
  induction s as [|c s IH]; simpl; intros m H.
  - destruct (re []) eqn:E; [|discriminate]. inversion H; subst; eauto.
  - destruct (re (c :: s)) eqn:E.
    + inversion H; subst; eauto.
    + now apply IH.
Qed.

Lemma search_here re s m : re s = Some m -> search re s = Some m.
Proof. intros H. destruct s; simpl; now rewrite H. Qed.

Lemma url_re_shape host cls s m :
  lit (T "http") (opt (T "s") (lit (T "://") (opt (T "www.")
    (lit host (plus_class cls))))) s = Some m ->
  shaped host cls m.
Proof.
  intros H.
  apply lit_some_k in H as (r1 & m1 & H & ->).
  assert (exists sch r2 m2, (sch = [] \/ sch = T "s") /\ m1 = sch ++ m2 /\
            lit (T "://") (opt (T "www.") (lit host (plus_class cls))) r2 = Some m2)
    as (sch & r2 & m2 & Hsch & -> & H2).
  { apply opt_some in H as [(r & m' & Hk & ->)|(r & Hk)].
    - exists (T "s"), r, m'; auto.
    - exists [], r, m1; auto. }
  apply lit_some_k in H2 as (r3 & m3 & H3 & ->).
  assert (exists www r4 m4, (www = [] \/ www = T "www.") /\ m3 = www ++ m4 /\
            lit host (plus_class cls) r4 = Some m4)
    as (www & r4 & m4 & Hwww & -> & H4).
  { apply opt_some in H3 as [(r & m' & Hk & ->)|(r & Hk)].
    - exists (T "www."), r, m'; auto.
    - exists [], r, m3; auto. }
  apply lit_some_k in H4 as (r5 & tail & H5 & ->).
  apply plus_class_some in H5 as [Hne Hall].
  exists sch, www, tail. repeat split; auto.
Qed.

Lemma contains_no_dot cls needle :
  forallb cls needle = false ->
  forall s, forallb cls s = true -> contains needle s = false.
Proof.
  intros Hn. induction s as [|c s IH]; intros Hs.
  - simpl. destruct (strip_prefix needle []) eqn:E; [|reflexivity].
    apply strip_prefix_some in E. symmetry in E. apply app_eq_nil in E as [-> _].
    discriminate.
  - simpl. destruct (strip_prefix needle (c :: s)) eqn:E.
    + apply strip_prefix_some in E. rewrite E, forallb_app, Hn in Hs. discriminate.
    + simpl in Hs. apply andb_true_iff in Hs as [_ Hs]. now apply IH.
Qed.

Lemma lit_app p k r m : k r = Some m -> lit p k (p ++ r) = Some (p ++ m).
Proof. intros H. unfold lit. now rewrite strip_prefix_app, H. Qed.

Lemma opt_take p k r m : k r = Some m -> opt p k (p ++ r) = Some (p ++ m).
Proof. intros H. unfold opt. now rewrite (lit_app _ _ _ _ H). Qed.

Lemma opt_skip p k s : strip_prefix p s = None -> opt p k s = k s.
Proof. intros H. unfold opt, lit. now rewrite H. Qed.

Lemma contains_here needle : forall a b, contains needle (a ++ needle ++ b) = true.
Proof.
  induction a as [|c a IH]; intros b.
  - simpl app. destruct (needle ++ b) eqn:E; simpl;
      rewrite <- ?E, strip_prefix_app; reflexivity.
  - simpl. rewrite IH. now destruct (strip_prefix needle (c :: a ++ needle ++ b)).
Qed.

(** A shaped text is matched whole at its first character. *)
Lemma url_re_fixed host cls m :
  (forall t, strip_prefix (T "www.") (host ++ t) = None) ->
  shaped host cls m ->
  lit (T "http") (opt (T "s") (lit (T "://") (opt (T "www.")
    (lit host (plus_class cls))))) m = Some m.
Proof.
  intros Hhost (sch & www & tail & Hsch & Hwww & Hne & Hall & ->).
  apply lit_app.
  assert (H1 : opt (T "www.") (lit host (plus_class cls)) (www ++ host ++ tail)
               = Some (www ++ host ++ tail)).
  { destruct Hwww as [-> | ->].
    - cbn [app]. rewrite opt_skip by apply Hhost.
      apply lit_app, plus_class_fix; assumption.
    - apply opt_take, lit_app, plus_class_fix; assumption. }
  destruct Hsch as [-> | ->].
  - cbn [app]. rewrite opt_skip by reflexivity. now apply lit_app.
  - now apply opt_take, lit_app.
Qed.

Lemma bilibili_fixed m :
  shaped (T "bilibili.com/video/BV") alnum m -> clean_text m = m.
Proof.
  intros Hm.
  assert (Hre : bilibili_re m = Some m)
    by (apply url_re_fixed; [reflexivity|exact Hm]).
  destruct Hm as (sch & www & tail & Hsch & Hwww & Hne & Hall & ->).
  unfold clean_text. rewrite (search_here _ _ _ Hre).
  replace (T "http" ++ sch ++ T "://" ++ www ++ T "bilibili.com/video/BV" ++ tail)
    with ((T "http" ++ sch ++ T "://" ++ www) ++ T "bilibili.com" ++ T "/video/BV" ++ tail)
    by (now rewrite <- !app_assoc).
  now rewrite contains_here.
Qed.

Lemma youtube_fixed m :
  shaped (T "youtube.com/watch?v=") idchar m -> clean_text m = m.
Proof.
  intros Hm.
  assert (Hre : youtube_re m = Some m)
    by (apply url_re_fixed; [reflexivity|exact Hm]).
  destruct Hm as (sch & www & tail & Hsch & Hwww & Hne & Hall & ->).
  assert (Hb : contains (T "bilibili.com") tail = false).
  { apply (contains_no_dot idchar); [reflexivity|exact Hall]. }
  assert (Hnb : contains (T "bilibili.com")
            (T "http" ++ sch ++ T "://" ++ www ++ T "youtube.com/watch?v=" ++ tail) = false).
  { destruct Hsch as [-> | ->], Hwww as [-> | ->]; simpl; exact Hb. }
  unfold clean_text. rewrite Hnb, (search_here _ _ _ Hre).
  replace (T "http" ++ sch ++ T "://" ++ www ++ T "youtube.com/watch?v=" ++ tail)
    with ((T "http" ++ sch ++ T "://" ++ www) ++ T "youtube.com" ++ T "/watch?v=" ++ tail)
    by (now rewrite <- !app_assoc).
  now rewrite contains_here.
Qed.

Lemma clean_text_idempotent url : clean_text (clean_text url) = clean_text url.
Proof.
  unfold clean_text at 2 3.
  destruct (contains (T "bilibili.com") url) eqn:Hb.
  - destruct (search bilibili_re url) as [m|] eqn:Hs.
    + apply search_some in Hs as [t Ht]. apply bilibili_fixed.
      exact (url_re_shape _ _ _ _ Ht).
    + unfold clean_text. now rewrite Hb, Hs.
  - destruct (contains (T "youtube.com") url) eqn:Hy.
    + destruct (search youtube_re url) as [m|] eqn:Hs.
      * apply search_some in Hs as [t Ht]. apply youtube_fixed.
        exact (url_re_shape _ _ _ _ Ht).
      * unfold clean_text. now rewrite Hb, Hy, Hs.
    + unfold clean_text. now rewrite Hb, Hy.
Qed.

End CleanUrlFacts.

(** C5. Canonicalisation is idempotent: for every source reference [x]
    (a bilibili url, a youtube url or any other string),
    [_clean_url (_clean_url x) = _clean_url x]. *)
Theorem clean_url_idempotent (x : string) :
  CleanUrl._clean_url (CleanUrl._clean_url x) = CleanUrl._clean_url x.
Proof.
  unfold CleanUrl._clean_url.
  rewrite list_ascii_of_string_of_list_ascii.
  now rewrite clean_text_idempotent.
Qed.

(** ** The ledger *)

Section DictFacts.
Context {V : Type}.
Implicit Types d : Dict.dict V.

Lemma get_set_same k v d : Dict.get k (Dict.set k v d) = Some v.
Proof.
  induction d as [|[k' v'] d IH]; simpl.
  - now rewrite String.eqb_refl.
  - destruct (String.eqb k k') eqn:E; simpl.
    + now rewrite String.eqb_refl.
    + now rewrite E.
Qed.

Lemma get_set_other k k' v d : k' <> k -> Dict.get k' (Dict.set k v d) = Dict.get k' d.
Proof.
  intros Hne. induction d as [|[k0 v0] d IH]; simpl.
  - apply String.eqb_neq in Hne. now rewrite Hne.
  - destruct (String.eqb k k0) eqn:E; simpl.
    + apply String.eqb_eq in E; subst k0.
      apply String.eqb_neq in Hne. now rewrite Hne.
    + now rewrite IH.
Qed.

Lemma get_in_keys k v d : Dict.get k d = Some v -> In k (Dict.keys d).
Proof.
  induction d as [|[k0 v0] d IH]; simpl; [discriminate|].
  destruct (String.eqb k k0) eqn:E.
  - apply String.eqb_eq in E. auto.
  - auto.
Qed.

End DictFacts.

(** The order of [str] is transitive. *)
Lemma string_compare_spec x y :
  CompSpec Logic.eq String_as_OT.lt x y (String.compare x y).
Proof. exact (String_as_OT.compare_spec x y). Qed.

Lemma string_leb_trans a b c :
  String.leb a b = true -> String.leb b c = true -> String.leb a c = true.
Proof.
  unfold String.leb.
  destruct (string_compare_spec a b) as [Hab|Hab|Hab]; [| |intros H; discriminate H].
  - subst b. auto.
  - destruct (string_compare_spec b c) as [Hbc|Hbc|Hbc];
      [| |intros _ H; discriminate H]; intros _ _.
    + subst c.
      destruct (string_compare_spec a b) as [?|?|Hba]; auto.
      exfalso. apply (StrictOrder_Irreflexive a). now transitivity b.
    + assert (Hac : String_as_OT.lt a c) by now transitivity b.
      destruct (string_compare_spec a c) as [?|?|Hca]; auto.
      exfalso. apply (StrictOrder_Irreflexive a). now transitivity c.
Qed.

Section LedgerFacts.
Import Ledger.

Lemma sorted_days_desc st :
  StronglySorted (fun a b => String.leb b a = true) (sorted_days st).
Proof.
  unfold sorted_days.
  apply DescSort.StronglySorted_sort.
  intros a b c Hab Hbc. unfold is_true, DescString.leb in *.
  exact (string_leb_trans _ _ _ Hbc Hab).
Qed.

Lemma in_sorted_days st day :
  In day (sorted_days st) <->
  In day (Dict.keys st) /\ day <> "url_stats"%string.
Proof.
  unfold sorted_days.
  set (l := filter _ _).
  assert (Hl : In day l <-> In day (Dict.keys st) /\ day <> "url_stats"%string).
  { unfold l. rewrite filter_In, negb_true_iff, String.eqb_neq. tauto. }
  rewrite <- Hl. split; intros H.
  - eapply Permutation_in; [apply Permutation_sym, DescSort.Permuted_sort|exact H].
  - eapply Permutation_in; [apply DescSort.Permuted_sort|exact H].
Qed.

Lemma first_match_some st url days v :
  first_match st url days = Some v ->
  exists day counters ts, In day days /\
    Dict.get day st = Some (Day counters ts) /\
    Dict.get url (timestamps_of ts) = Some v.
Proof.
  induction days as [|d days IH]; simpl; [discriminate|].
  destruct (Dict.get d st) as [[|c ts]|] eqn:Hd.
  - intros H. destruct (IH H) as (day & c' & ts' & Hin & H1 & H2).
    exists day, c', ts'. auto.
  - destruct (Dict.get url (timestamps_of ts)) as [v0|] eqn:Hu.
    + intros H; inversion H; subst. exists d, c, ts. auto.
    + intros H. destruct (IH H) as (day & c' & ts' & Hin & H1 & H2).
      exists day, c', ts'. auto.
  - intros H. destruct (IH H) as (day & c' & ts' & Hin & H1 & H2).
    exists day, c', ts'. auto.
Qed.

(** On a list of days in descending order the scan stops at the greatest
    day that records the url. *)
Lemma first_match_newest st url day v :
  holds st url day v ->
  (forall day' v', holds st url day' v' -> String.leb day' day = true) ->
  forall days,
    StronglySorted (fun a b => String.leb b a = true) days ->
    Forall (fun d => d <> "url_stats"%string) days ->
    In day days ->
    first_match st url days = Some v.
Proof.
  intros (Hne & c & ts & Hday & Hv) Hmax.
  induction days as [|d days IH]; intros Hs Hf Hin; [contradiction|].
  apply StronglySorted_inv in Hs as [Hs Hd].
  apply Forall_cons_iff in Hf as [Hdn Hf].
  simpl.
  destruct (Dict.get d st) as [[|c' ts']|] eqn:Hget.
  - destruct Hin as [->|Hin]; [congruence|]. now apply IH.
  - destruct (Dict.get url (timestamps_of ts')) as [v'|] eqn:Hu.
    + assert (Hle : String.leb d day = true).
      { apply (Hmax d v'). split; [exact Hdn|]. eauto. }
      assert (d = day) as ->.
      { destruct Hin as [->|Hin]; [reflexivity|].
        apply String.leb_antisym; [exact Hle|].
        rewrite Forall_forall in Hd. now apply Hd. }
      congruence.
    + destruct Hin as [->|Hin]; [congruence|]. now apply IH.
  - destruct Hin as [->|Hin]; [congruence|]. now apply IH.
Qed.

Lemma lookup_newest st url day v :
  holds st (CleanUrl._clean_url url) day v ->
  (forall day' v', holds st (CleanUrl._clean_url url) day' v' ->
                   String.leb day' day = true) ->
  get_saved_timestamp_status st url = status_of (Some v).
Proof.
  intros Hh Hmax. unfold get_saved_timestamp_status. f_equal.
  apply (first_match_newest st _ day v Hh Hmax).
  - apply sorted_days_desc.
  - apply Forall_forall. intros d Hd. now apply in_sorted_days in Hd.
  - apply in_sorted_days. destruct Hh as (Hne & c & ts & Hday & _).
    split; [eapply get_in_keys; eassumption|exact Hne].
Qed.

Lemma store_holds st today url v st' :
  today <> "url_stats"%string ->
  store st today url v = Some st' ->
  holds st' url today v.
Proof.
  intros Hne. unfold store.
  set (st1 := if Dict.mem today st then st else _).
  destruct (Dict.get today st1) as [[|c ts]|]; try discriminate.
  intros H; inversion H; subst. split; [exact Hne|].
  exists c, (Some (Dict.set url v (timestamps_of ts))).
  split; [apply get_set_same|]. simpl. apply get_set_same.
Qed.

Lemma store_other_days st today url v st' day :
  day <> today ->
  store st today url v = Some st' ->
  Dict.get day st' = Dict.get day st.
Proof.
  intros Hne. unfold store.
  destruct (Dict.mem today st) eqn:Hm.
  - destruct (Dict.get today st) as [[|c ts]|]; try discriminate.
    intros H; inversion H; subst. now apply get_set_other.
  - destruct (Dict.get today _) as [[|c ts]|]; try discriminate.
    intros H; inversion H; subst. rewrite !get_set_other by exact Hne. reflexivity.
Qed.

End LedgerFacts.

(** C3. The saved-status lookup scans the date buckets newest-first and
    returns the value of the most recent bucket that records the canonical
    ref; so after the ref is recorded as finished today (today being no
    older than any bucket that records it), the lookup answers [Finished],
    whatever position an earlier date holds for it. *)
Theorem saved_status_newest_first (st : Ledger.stats) (url : string) :
  (forall day v,
      holds st (CleanUrl._clean_url url) day v ->
      (forall day' v', holds st (CleanUrl._clean_url url) day' v' ->
                       String.leb day' day = true) ->
      Ledger.get_saved_timestamp_status st url = Ledger.status_of (Some v))
  /\
  (forall today st',
      today <> "url_stats"%string ->
      (forall day' v', holds st (CleanUrl._clean_url url) day' v' ->
                       String.leb day' today = true) ->
      Progress.mark_as_watched url today st = Some st' ->
      Ledger.get_saved_timestamp_status st' url = Ledger.Finished).
Proof.
  split.
  - intros day v. apply lookup_newest.
  - intros today st' Hne Hmax Hstore. unfold Progress.mark_as_watched in Hstore.
    change Ledger.Finished with (Ledger.status_of (Some (-1))).
    apply (lookup_newest st' url today).
    + eapply store_holds; eassumption.
    + intros day' v' (Hd & c & ts & Hget & Hu).
      destruct (String.eqb_spec day' today) as [->|Hdiff].
      * destruct (String.leb_total today today); assumption.
      * rewrite (store_other_days _ _ _ _ _ _ Hdiff Hstore) in Hget.
        apply (Hmax day' v'). split; [exact Hd|]. eauto.
Qed.

Lemma ledger_2024_holders day v :
  holds ledger_2024 "https://www.bilibili.com/video/BV1xx411c7mD" day v ->
  day = "2024-03-01"%string.
Proof.
  intros (Hd & c & ts & Hget & Hu).
  unfold ledger_2024 in Hget. simpl in Hget.
  destruct (String.eqb day "2024-03-01") eqn:E1.
  - now apply String.eqb_eq in E1.
  - destruct (String.eqb day "url_stats") eqn:E2; [discriminate|].
    destruct (String.eqb day "2024-03-02") eqn:E3; [|discriminate].
    inversion Hget; subst. discriminate.
Defined.

Lemma saved_status_newest_first_witness :
  let url := "https://www.bilibili.com/video/BV1xx411c7mD?t=3"%string in
  Ledger.get_saved_timestamp_status ledger_2024 url = Ledger.Position (125 # 2) /\
  exists st',
    Progress.mark_as_watched url "2024-03-02" ledger_2024 = Some st' /\
    Ledger.get_saved_timestamp_status st' url = Ledger.Finished.
Proof.
  intros url.
  pose proof (saved_status_newest_first ledger_2024 url) as [Hlook Hrec].
  split.
  - apply (Hlook "2024-03-01"%string (125 # 2)).
    + split; [discriminate|]. do 2 eexists. split; reflexivity.
    + intros day' v' H. apply ledger_2024_holders in H. subst. reflexivity.
  - eexists. split; [reflexivity|].
    apply (Hrec "2024-03-02"%string).
    + discriminate.
    + intros day' v' H. apply ledger_2024_holders in H. subst. reflexivity.
    + reflexivity.
Defined.

(** [get_saved_timestamp], which seeks on resume, walks the ledger in
    insertion order instead and so answers with the oldest bucket. *)
Example get_saved_timestamp_insertion_order :
  let url := "https://www.bilibili.com/video/BV1xx411c7mD"%string in
  let st := [ ("2024-03-01", Ledger.Day [] (Some [(url, 125 # 2)]));
              ("2024-03-02", Ledger.Day [] (Some [(url, -1)])) ]%string in
  Ledger.get_saved_timestamp st url = Some (125 # 2) /\
  Ledger.get_saved_timestamp_status st url = Ledger.Finished.
Proof. split; reflexivity. Qed.

(** C10. A save in which the item is not judged finished and the probed
    position is not greater than zero returns with the ledger as it was;
    in particular no stored position or finished mark is replaced by
    zero. *)
Theorem save_without_progress_keeps_ledger
    (save_timestamp : bool) (current_url : option string)
    (h : Backend.handles) (finished_percentage : Z)
    (p : Progress.save_probe) (st : Ledger.stats) (timestamp : Q) :
  fst (Backend.get_video_timestamp h (Progress.timestamp_reply p)
         (Progress.timestamp_script p)) = Backend.Returns timestamp ->
  timestamp <= 0 ->
  fst (Backend.is_video_finished h finished_percentage (Progress.finished_query p))
  = Backend.Returns false ->
  fst (Progress.save_current_timestamp save_timestamp current_url h
         finished_percentage p st)
  = Backend.Returns st.
Proof.
  intros Hts Hpos Hfin. unfold Progress.save_current_timestamp.
  destruct current_url as [url|]; [|reflexivity].
  destruct (negb save_timestamp || Progress.falsy_url (Some url)); [reflexivity|].
  destruct (Backend.get_video_timestamp _ _ _) as [r1 l1]. simpl in Hts. subst r1.
  destruct (Backend.is_video_finished _ _ _) as [r2 l2]. simpl in Hfin. subst r2.
  simpl.
  destruct (Qlt_le_dec 0 timestamp) as [Hlt|Hle]; [|reflexivity].
  exfalso. exact (Qlt_not_le _ _ Hlt Hpos).
Qed.

(** Every failure of the position probe that the code handles yields
    position [0]. *)
Lemma failed_probe_is_zero (h : Backend.handles) (o : Backend.ipc_outcome)
    (js : Backend.script_outcome) :
  In o [Backend.IpcNoData; Backend.IpcTimeout; Backend.IpcIOError; Backend.IpcBadJson] ->
  In js [Backend.ScriptNull; Backend.ScriptWebDriverException] ->
  fst (Backend.get_video_timestamp h o js) = Backend.Returns 0.
Proof.
  intros Ho Hjs.
  unfold Backend.get_video_timestamp, Backend.query_mpv, Backend.script_number.
  simpl in Ho, Hjs.
  destruct (Backend.mpv_process h) as [[|]|].
  - destruct (Backend.browser h); [|reflexivity].
    destruct Hjs as [<-|[<-|[]]]; reflexivity.
  - destruct (Backend.mpv_ipc_path h); [|reflexivity].
    destruct Ho as [<-|[<-|[<-|[<-|[]]]]]; reflexivity.
  - destruct (Backend.browser h); [|reflexivity].
    destruct Hjs as [<-|[<-|[]]]; reflexivity.
Qed.

Lemma save_without_progress_keeps_ledger_witness :
  fst (Progress.save_current_timestamp true
         (Some "https://www.bilibili.com/video/BV1xx411c7mD"%string) mpv_running 95
         {| Progress.today := "2024-03-02"; Progress.timestamp_reply := Backend.IpcTimeout;
            Progress.timestamp_script := Backend.ScriptNull;
            Progress.finished_query := all_timeouts |}
         ledger_2024)
  = Backend.Returns ledger_2024.
Proof.
  apply (save_without_progress_keeps_ledger _ _ _ _ _ _ 0).
  - reflexivity.
  - discriminate.
  - reflexivity.
Defined.

(** The same save with a position above zero does write. *)
Example save_with_progress_writes :
  fst (Progress.save_current_timestamp true
         (Some "https://www.bilibili.com/video/BV1xx411c7mD"%string) mpv_running 95
         {| Progress.today := "2024-03-02";
            Progress.timestamp_reply := Backend.IpcData 30;
            Progress.timestamp_script := Backend.ScriptNull;
            Progress.finished_query := all_timeouts |}
         ledger_2024)
  = Backend.Returns
      [ ("2024-03-01", Ledger.Day [("total_monitored_time", 600)]
           (Some [("https://www.bilibili.com/video/BV1xx411c7mD", 125 # 2)]));
        ("url_stats", Ledger.NotADict);
        ("2024-03-02", Ledger.Day []
           (Some [("https://www.bilibili.com/video/BV1xx411c7mD", 30)])) ]%string.
Proof. reflexivity. Qed.

(** ** Building the queue *)

Lemma filter_length_split {A} (f : A -> bool) (l : list A) :
  (List.length (filter f l) + List.length (filter (fun x => negb (f x)) l)
   = List.length l)%nat.
Proof.
  induction l as [|a l IH]; simpl; [reflexivity|].
  destruct (f a); simpl; lia.
Qed.

(** C4. Under smart shuffle the queue is the unwatched items of the pool,
    in some permuted order, followed by the finished items of the pool in
    their input order; with [u] unwatched and [w] finished items the first
    [u] places are unwatched and the last [w] are finished. *)
Theorem smart_shuffle_unwatched_first
    (sh : shuffler) (st : Ledger.stats) (random_list_var : bool) (pool : list string) :
  let finished := Player.is_finished st in
  let w := List.length (filter finished pool) in
  let u := List.length (filter (fun url => negb (finished url)) pool) in
  exists unwatched watched,
    Player.build_queue sh st true random_list_var pool = unwatched ++ watched /\
    Permutation unwatched (filter (fun url => negb (finished url)) pool) /\
    watched = filter finished pool /\
    List.length unwatched = u /\ List.length watched = w /\
    (u + w = List.length pool)%nat /\
    Forall (fun url => finished url = false) unwatched /\
    Forall (fun url => finished url = true) watched.
Proof.
  intros finished w u.
  exists (sh (filter (fun url => negb (finished url)) pool)), (filter finished pool).
  pose proof (shuffle_perm sh (filter (fun url => negb (finished url)) pool)) as Hp.
  repeat split.
  - exact Hp.
  - now apply Permutation_length.
  - unfold u, w. rewrite Nat.add_comm. apply filter_length_split.
  - apply Forall_forall. intros x Hx.
    apply (Permutation_in _ Hp), filter_In in Hx. now apply negb_true_iff.
  - apply Forall_forall. intros x Hx. now apply filter_In in Hx.
Qed.

Example smart_shuffle_example :
  let a := "https://www.bilibili.com/video/BV1xx411c7mD"%string in
  let st := [ ("2024-03-01", Ledger.Day [] (Some [(a, -1); ("d.mp4", -1)])) ]%string in
  Player.build_queue reversing st true false [a; "b.mp4"; "c.mp4"; "d.mp4"]%string
  = ["c.mp4"; "b.mp4"; a; "d.mp4"]%string.
Proof. reflexivity. Qed.

(** ** Navigation in the queue *)

Section NavigationFacts.
Import Player.
Local Open Scope Z_scope.

Lemma nonempty_len l : nonempty l = true -> 0 < len l.
Proof. destruct l; [discriminate|]. unfold len. simpl. lia. Qed.

Lemma nonempty_false l : nonempty l = false -> l = [].
Proof. now destruct l. Qed.

Lemma clamp_range i l : 0 < len l -> 0 <= clamp i l < len l.
Proof. unfold clamp. lia. Qed.

Ltac nav_cases :=
  repeat match goal with
    | |- context [if ?b then _ else _] => destruct b eqn:?
    | |- context [match ?t with Some _ => _ | None => _ end] => destruct t eqn:?
    end.

Ltac nav_facts :=
  repeat match goal with
    | H : _ && _ = true |- _ => apply andb_true_iff in H as [? ?]
    | H : nonempty _ = true |- _ => apply nonempty_len in H
    | H : nonempty ?l = false |- _ => apply nonempty_false in H
    | H : (_ <? _) = true |- _ => apply Z.ltb_lt in H
    | H : (_ <=? _) = true |- _ => apply Z.leb_le in H
    | H : (_ =? _) = false |- _ => apply Z.eqb_neq in H
    end.

Lemma apply_queues c s :
  main_queue (apply c s) = main_queue s /\
  current_playlist_videos (apply c s) = current_playlist_videos s.
Proof.
  destruct c; simpl;
    unfold next_video, previous_video, skip_videos, on_jump_entry;
    nav_cases; simpl; auto.
Qed.

Lemma apply_in_bounds c s : in_bounds s -> in_bounds (apply c s).
Proof.
  intros [Hm Hp].
  destruct c; simpl;
    unfold next_video, previous_video, skip_videos, on_jump_entry;
    nav_cases; try (split; assumption);
    nav_facts; split; simpl; intros Hne;
    try (specialize (Hm Hne)); try (specialize (Hp Hne));
    try assumption;
    try match goal with
      | |- context [clamp ?i ?l] =>
          pose proof (clamp_range i l ltac:(assumption))
      end;
    try lia; try congruence.
Qed.

Lemma apply_all_in_bounds cs : forall s,
  in_bounds s ->
  in_bounds (apply_all cs s) /\
  main_queue (apply_all cs s) = main_queue s /\
  current_playlist_videos (apply_all cs s) = current_playlist_videos s.
Proof.
  induction cs as [|c cs IH]; intros s Hs; [split; [exact Hs|split; reflexivity]|].
  simpl. destruct (IH (apply c s) (apply_in_bounds c s Hs)) as (H1 & H2 & H3).
  destruct (apply_queues c s) as [Q1 Q2].
  repeat split; try apply H1; congruence.
Qed.

End NavigationFacts.

(** C1, as stated, fails: entering [1] in the jump box while the second of
    three items plays stores [-1] in [main_queue_index]. *)
Lemma jump_to_first_stores_minus_one :
  in_range three_playing_second /\
  let s' := Player.apply_all [Player.Jump (Some 1%Z)] three_playing_second in
  Player.main_queue s' <> [] /\
  Player.main_queue_index s' = (-1)%Z /\
  ~ (0 <= Player.main_queue_index s' < Player.len (Player.main_queue s'))%Z.
Proof.
  split.
  - split; simpl; intros H; [unfold Player.len; simpl; lia|now destruct H].
  - simpl. split; [discriminate|]. split; [reflexivity|].
    intros [H _]. now apply H.
Qed.

(** C1, amended. For every queue (main queue or current playlist) whose
    stored index [i] satisfies [-1 <= i < len(queue)], after any sequence
    of [next_video], [previous_video], [skip_videos] and [on_jump_entry]
    the queue is the same and its stored index still satisfies
    [-1 <= i < len(queue)]. *)
Theorem navigation_keeps_index_bounds (cs : list Player.command) (s : Player.state) :
  in_bounds s ->
  let s' := Player.apply_all cs s in
  Player.main_queue s' = Player.main_queue s /\
  Player.current_playlist_videos s' = Player.current_playlist_videos s /\
  (Player.main_queue s' <> [] ->
   (-1 <= Player.main_queue_index s' < Player.len (Player.main_queue s'))%Z) /\
  (Player.current_playlist_videos s' <> [] ->
   (-1 <= Player.current_playlist_index s'
    < Player.len (Player.current_playlist_videos s'))%Z).
Proof.
  intros Hs s'.
  destruct (apply_all_in_bounds cs s Hs) as ([H1 H2] & H3 & H4).
  repeat split; try assumption; try apply H1; try apply H2; assumption.
Qed.

Lemma navigation_keeps_index_bounds_witness :
  let s' := Player.apply_all
              [Player.Next; Player.Previous; Player.Skip 5; Player.Jump (Some 1%Z);
               Player.Skip (-7); Player.Jump None; Player.Previous]
              three_playing_second in
  Player.main_queue s' = Player.main_queue three_playing_second /\
  Player.current_playlist_videos s' = Player.current_playlist_videos three_playing_second /\
  (Player.main_queue s' <> [] ->
   (-1 <= Player.main_queue_index s' < Player.len (Player.main_queue s'))%Z) /\
  (Player.current_playlist_videos s' <> [] ->
   (-1 <= Player.current_playlist_index s'
    < Player.len (Player.current_playlist_videos s'))%Z).
Proof.
  apply navigation_keeps_index_bounds.
  split; simpl; intros H; [unfold Player.len; simpl; lia|now destruct H].
Defined.

(** From a settled main queue, the position the monitor loop moves to after
    a command that set [skip_event] (the stored index plus one) is a
    position of the queue. *)
Lemma main_queue_target_in_range (c : Player.command) (s : Player.state) :
  Player.current_playlist_videos s = [] ->
  Player.skip_event s = false ->
  (0 <= Player.main_queue_index s < Player.len (Player.main_queue s))%Z ->
  Player.skip_event (Player.apply c s) = true ->
  (0 <= Player.main_queue_index (Player.apply c s) + 1
   < Player.len (Player.main_queue s))%Z.
Proof.
  intros Hp Hk Hi.
  destruct c; simpl;
    unfold Player.next_video, Player.previous_video, Player.skip_videos,
      Player.on_jump_entry;
    rewrite Hp; simpl;
    repeat match goal with
      | |- context [if ?b then _ else _] => destruct b eqn:?
      | |- context [match ?t with Some _ => _ | None => _ end] => destruct t eqn:?
      end; simpl; intros Hs; try congruence;
    repeat match goal with
      | H : _ && _ = true |- _ => apply andb_true_iff in H as [? ?]
      | H : (_ <? _)%Z = true |- _ => apply Z.ltb_lt in H
      | H : (_ <=? _)%Z = true |- _ => apply Z.leb_le in H
      | H : (_ =? _)%Z = false |- _ => apply Z.eqb_neq in H
      end; unfold Player.clamp in *; lia.
Qed.

(** ** Changing the mode during playback *)

Section RebuildFacts.
Import Player.

Lemma bound_inside {A} (l : list A) (i : Z) :
  (0 <= i <= Z.of_nat (List.length l))%Z -> Slice.bound l i = Z.to_nat i.
Proof.
  intros H. unfold Slice.bound.
  destruct (i <? 0)%Z eqn:E; [apply Z.ltb_lt in E; lia|].
  f_equal. lia.
Qed.

Lemma split_at_current {A} (l : list A) : forall n x,
  nth_error l n = Some x -> firstn n l ++ [x] ++ skipn (S n) l = l.
Proof.
  induction l as [|a l IH]; intros [|n] x H; simpl in *; try discriminate.
  - now inversion H.
  - f_equal. now apply IH.
Qed.

Lemma slices_around_current (q : list string) (i : Z) (cur : string) :
  (0 <= i < len q)%Z ->
  nth_error q (Z.to_nat i) = Some cur ->
  Slice.upto q i ++ [cur] ++ Slice.from q (i + 1) = q.
Proof.
  intros Hi Hn. unfold Slice.upto, Slice.from, len in *.
  rewrite !bound_inside by lia.
  replace (Z.to_nat (i + 1)) with (S (Z.to_nat i)) by lia.
  now apply split_at_current.
Qed.

Lemma rebuild_shape sh new_mode s cur :
  current_url s = Some cur -> cur <> ""%string -> main_queue s <> [] ->
  exists upcoming,
    rebuild_queue_dynamically sh new_mode s
    = set_main_queue
        (Slice.upto (main_queue s) (main_queue_index s) ++ [cur] ++ upcoming) s /\
    let rest := Slice.from (main_queue s) (main_queue_index s + 1) in
    let after := option_map (fun i => skipn (S i) (all_tree_items s))
                   (index_of cur (all_tree_items s)) in
    (new_mode = "Sequential"%string ->
     upcoming = match after with Some l => l | None => rest end) /\
    (new_mode = "Shuffle All"%string \/ new_mode = "Smart Shuffle"%string ->
     Permutation upcoming (match after with Some l => l | None => rest end)) /\
    (new_mode <> "Sequential"%string -> new_mode <> "Shuffle All"%string ->
     new_mode <> "Smart Shuffle"%string -> upcoming = rest).
Proof.
  intros Hcur Hne Hq. unfold rebuild_queue_dynamically. rewrite Hcur.
  assert (nonempty (main_queue s) = true) as ->
    by (destruct (main_queue s); [now destruct Hq|reflexivity]).
  apply String.eqb_neq in Hne. rewrite Hne. simpl negb. cbv iota. simpl orb at 1.
  eexists. split; [reflexivity|]. cbv zeta.
  destruct (String.eqb_spec new_mode "Sequential") as [->|Hs].
  - repeat split.
    + intros _. now destruct (index_of cur (all_tree_items s)).
    + intros [H|H]; discriminate H.
    + intros H; now destruct H.
  - destruct (String.eqb_spec new_mode "Shuffle All") as [->|Ha];
      [|destruct (String.eqb_spec new_mode "Smart Shuffle") as [->|Hm]]; simpl.
    + repeat split; try (intros H; discriminate H); try (intros ? H; now destruct H).
      intros _. destruct (index_of cur (all_tree_items s)); simpl; apply shuffle_perm.
    + repeat split; try (intros H; discriminate H); try (intros ? ? H; now destruct H).
      intros _. destruct (index_of cur (all_tree_items s)); simpl; apply shuffle_perm.
    + repeat split; try (intros H; congruence). intros [H|H]; congruence.
Qed.

End RebuildFacts.

(** C7, as stated, fails: with the shuffled queue [c, a, b] playing [c]
    and the backing list [a, b, c], the change to Sequential leaves the
    queue [c]; what follows the current item is not a reordering of the
    items that were still to play. *)
Lemma rebuild_drops_unplayed_items :
  let s := shuffled_three in
  let s' := Player.rebuild_queue_dynamically keep_order "Sequential" s in
  Player.main_queue s' = ["c.mp4"]%string /\
  forall suffix,
    Permutation suffix (Slice.from (Player.main_queue s) (Player.main_queue_index s + 1)) ->
    Player.main_queue s'
    <> Slice.upto (Player.main_queue s) (Player.main_queue_index s)
         ++ ["c.mp4"%string] ++ suffix.
Proof.
  split; [reflexivity|].
  intros suffix Hp Heq. apply Permutation_length in Hp.
  apply (f_equal (@List.length string)) in Heq.
  simpl in Hp, Heq. rewrite Hp in Heq. discriminate Heq.
Qed.

(** C7, amended. For an active session (a non-empty queue and a current
    item) and a mode change other than to True Random, the rebuilt queue
    is the already-played prefix, then the current item, then an upcoming
    list, and the index is unchanged.  The upcoming list is: for
    Sequential, the items that follow the current item's first occurrence
    in the backing list, in their order; for Shuffle All and Smart Shuffle,
    a permutation of those items; when the current item is not in the
    backing list, the remaining in-memory suffix (as it is for Sequential,
    permuted for the shuffles); for any other mode, the remaining suffix
    unchanged.  When the current item sits at the index and the items that
    follow it in the backing list are the remaining suffix, the change to
    Sequential leaves the queue unchanged. *)
Theorem rebuild_keeps_played_prefix
    (sh : shuffler) (new_mode : string) (s : Player.state) (cur : string) :
  Player.current_url s = Some cur -> cur <> ""%string -> Player.main_queue s <> [] ->
  let s' := Player.rebuild_queue_dynamically sh new_mode s in
  let q := Player.main_queue s in
  let i := Player.main_queue_index s in
  let rest := Slice.from q (i + 1) in
  let after := option_map (fun n => skipn (S n) (Player.all_tree_items s))
                 (Player.index_of cur (Player.all_tree_items s)) in
  Player.main_queue_index s' = i /\
  (exists upcoming,
      Player.main_queue s' = Slice.upto q i ++ [cur] ++ upcoming /\
      (new_mode = "Sequential"%string ->
       upcoming = match after with Some l => l | None => rest end) /\
      (new_mode = "Shuffle All"%string \/ new_mode = "Smart Shuffle"%string ->
       Permutation upcoming (match after with Some l => l | None => rest end)) /\
      (new_mode <> "Sequential"%string -> new_mode <> "Shuffle All"%string ->
       new_mode <> "Smart Shuffle"%string -> upcoming = rest)) /\
  (new_mode = "Sequential"%string ->
   (0 <= i < Player.len q)%Z -> nth_error q (Z.to_nat i) = Some cur ->
   match after with Some l => l = rest | None => True end ->
   Player.main_queue s' = q).
Proof.
  intros Hcur Hne Hq s' q i rest after.
  destruct (rebuild_shape sh new_mode s cur Hcur Hne Hq) as (up & Heq & Hseq & Hsh & Hoth).
  subst s'. rewrite Heq. simpl. split; [reflexivity|]. split.
  - exists up. repeat split; assumption.
  - intros Hmode Hi Hn Hafter. rewrite (Hseq Hmode).
    fold after. fold q i rest.
    destruct after as [l|]; [rewrite Hafter|]; now apply slices_around_current.
Qed.

Lemma rebuild_keeps_played_prefix_witness :
  Player.main_queue (Player.rebuild_queue_dynamically reversing "Sequential" custom_five)
  = ["A"; "B"; "C"; "D"; "E"]%string.
Proof.
  refine (proj2 (proj2 (rebuild_keeps_played_prefix reversing "Sequential"
                          custom_five "B" _ _ _)) _ _ _ _).
  - reflexivity.
  - discriminate.
  - discriminate.
  - reflexivity.
  - unfold Player.len. simpl. lia.
  - reflexivity.
  - reflexivity.
Defined.

(** The scenario of the specification, run: Custom to Sequential with
    played prefix [A], current [B] and remainder [C, D, E]. *)
Example custom_to_sequential_unchanged :
  Player.main_queue (fst (Player.on_playlist_mode_change reversing custom_five))
  = ["A"; "B"; "C"; "D"; "E"]%string.
Proof. reflexivity. Qed.

(** C8, as stated, fails for a switch out of True Random: the request is
    accepted, the selection is not reverted and the ordering flags change. *)
Lemma switch_out_of_true_random_accepted :
  let s := true_random_session in
  let '(s', shown) := Player.on_playlist_mode_change keep_order s in
  Player.is_monitoring s = true /\
  Player.previous_playlist_mode s = "True Random"%string /\
  shown = Player.Quiet /\
  Player.playlist_mode_var s' = "Sequential"%string /\
  Player.playlist_mode_var s' <> Player.previous_playlist_mode s /\
  Player.previous_playlist_mode s' = "Sequential"%string /\
  Player.true_random_on_skip s' = false /\
  s' <> s.
Proof.
  simpl. repeat split; try reflexivity; discriminate.
Qed.

(** C8, amended. While a session is active, a switch into True Random is
    rejected: a notice is shown, the mode selection reverts to its previous
    value and nothing else (queue, indices, current item, session flag,
    ordering flags) changes.  A switch to any other mode, also out of True
    Random, is accepted: the selection and the remembered previous mode
    become the new mode, and the index and session flag are unchanged. *)
Theorem true_random_switch_during_playback (sh : shuffler) (s : Player.state) :
  Player.is_monitoring s = true ->
  let new_mode := Player.playlist_mode_var s in
  let '(s', shown) := Player.on_playlist_mode_change sh s in
  (new_mode = "True Random"%string ->
   shown = Player.ModeChangeRequired /\
   s' = Player.set_mode_vars (Player.previous_playlist_mode s)
          (Player.previous_playlist_mode s) s /\
   Player.playlist_mode_var s' = Player.previous_playlist_mode s /\
   Player.main_queue s' = Player.main_queue s /\
   Player.main_queue_index s' = Player.main_queue_index s /\
   Player.is_monitoring s' = true /\
   Player.true_random_on_skip s' = Player.true_random_on_skip s) /\
  (new_mode <> "True Random"%string ->
   shown = Player.Quiet /\
   Player.playlist_mode_var s' = new_mode /\
   Player.previous_playlist_mode s' = new_mode /\
   Player.main_queue_index s' = Player.main_queue_index s /\
   Player.is_monitoring s' = true).
Proof.
  intros Hmon new_mode. unfold Player.on_playlist_mode_change. rewrite Hmon.
  fold new_mode. simpl andb.
  destruct (String.eqb_spec new_mode "True Random") as [E|E].
  - split; [|intros H; now destruct H].
    intros _. simpl. repeat split; assumption.
  - split; [intros H; now destruct (E H)|]. intros _.
    assert (Hr : Player.main_queue_index (Player.rebuild_queue_dynamically sh new_mode s)
                 = Player.main_queue_index s /\
                 Player.is_monitoring (Player.rebuild_queue_dynamically sh new_mode s)
                 = Player.is_monitoring s).
    { unfold Player.rebuild_queue_dynamically.
      destruct (Player.current_url s); [|now split].
      destruct (_ || _); now split. }
    destruct Hr as [Hi Hm].
    unfold Player.preset.
    repeat match goal with
      | |- context [if ?b then _ else _] => destruct b
      end; simpl; rewrite ?Hi, ?Hm; repeat split; assumption.
Qed.

Lemma true_random_switch_during_playback_witness :
  let s := {| Player.is_monitoring := true;
     Player.main_queue := ["a.mp4"; "b.mp4"]%string;
     Player.main_queue_index := 1;
     Player.current_playlist_videos := [];
     Player.current_playlist_index := 0;
     Player.current_url := Some "b.mp4"%string;
     Player.skip_event := false;
     Player.all_tree_items := ["a.mp4"; "b.mp4"]%string;
     Player.playlist_mode_var := "True Random";
     Player.previous_playlist_mode := "Sequential";
     Player.expand_playlists := true; Player.random_list := false;
     Player.true_random_on_skip := false; Player.smart_shuffle := false;
     Player.shuffle_within_playlists := false;
     Player.sequential_playlists := true |} in
  Player.playlist_mode_var (fst (Player.on_playlist_mode_change keep_order s))
  = "Sequential"%string /\
  snd (Player.on_playlist_mode_change keep_order s) = Player.ModeChangeRequired.
Proof.
  intros s.
  pose proof (true_random_switch_during_playback keep_order s eq_refl) as H.
  destruct (Player.on_playlist_mode_change keep_order s) as [s' shown] eqn:E.
  destruct H as [H _]. destruct (H eq_refl) as (H1 & H2 & H3 & _).
  split; [exact H3|exact H1].
Defined.

(** ** The external player times out *)

(** C9, as stated, fails: the ended-check keeps no cached answer.  In one
    tick the position query times out while the player was still running,
    and the ended-check that follows, the process having exited meanwhile,
    answers [true] although the previous tick's answer was [false]. *)
Lemma ended_check_has_no_cache :
  let previous := fst (Backend.is_video_ended mpv_running Backend.ScriptNull) in
  let position :=
    Backend.get_video_timestamp mpv_running Backend.IpcTimeout Backend.ScriptNull in
  let ended := fst (Backend.is_video_ended mpv_exited Backend.ScriptNull) in
  previous = Backend.Returns false /\
  fst position = Backend.Returns 0 /\
  ended = Backend.Returns true /\
  ended <> previous.
Proof. repeat split; try reflexivity. discriminate. Qed.

(** C9, amended. When a position query to the external player times out,
    [query_mpv] logs one warning and returns [None], [get_video_timestamp]
    returns [0] and no exception gets out.  The ended-check consults
    neither the position nor a cached answer: for the external player it
    returns whether the process has exited, logging nothing. *)
Theorem position_timeout_fails_soft (h : Backend.handles) (js : Backend.script_outcome) :
  Backend.mpv_process h = Some false ->
  Backend.mpv_ipc_path h = true ->
  (exists w,
      Backend.is_warning w = true /\
      Backend.query_mpv h "time-pos" Backend.IpcTimeout = (Backend.Returns None, [w]) /\
      Backend.get_video_timestamp h Backend.IpcTimeout js = (Backend.Returns 0, [w])) /\
  (forall h' js' exited,
      Backend.mpv_process h' = Some exited ->
      Backend.is_video_ended h' js' = (Backend.Returns exited, [])).
Proof.
  intros Hp Hi. split.
  - eexists. split; [|split].
    2:{ unfold Backend.query_mpv. rewrite Hp, Hi. reflexivity. }
    + reflexivity.
    + unfold Backend.get_video_timestamp, Backend.query_mpv. rewrite Hp, Hi. reflexivity.
  - intros h' js' exited H. unfold Backend.is_video_ended. now rewrite H.
Qed.

Lemma position_timeout_fails_soft_witness :
  (exists w,
      Backend.is_warning w = true /\
      Backend.query_mpv mpv_running "time-pos" Backend.IpcTimeout
      = (Backend.Returns None, [w]) /\
      Backend.get_video_timestamp mpv_running Backend.IpcTimeout Backend.ScriptNull
      = (Backend.Returns 0, [w])) /\
  (forall h' js' exited,
      Backend.mpv_process h' = Some exited ->
      Backend.is_video_ended h' js' = (Backend.Returns exited, [])).
Proof.
  apply position_timeout_fails_soft; reflexivity.
Defined.

(** ** The silence monitor *)

Section MonitorFacts.
Import Monitor.

Lemma below_floor_true x : below_floor x = true <-> volume_norm x < silence_threshold x.
Proof.
  unfold below_floor. destruct (Qlt_le_dec _ _) as [H|H]; split; auto.
  - discriminate.
  - intros H'. exfalso. exact (Qlt_not_le _ _ H' H).
Qed.

Lemma below_floor_false x : below_floor x = false <-> silence_threshold x <= volume_norm x.
Proof.
  unfold below_floor. destruct (Qlt_le_dec _ _) as [H|H]; split; auto.
  - discriminate.
  - intros H'. exfalso. exact (Qlt_not_le _ _ H H').
Qed.

(** What holds whenever a callback schedules a trigger. *)
Lemma fire_inversion x s s' f :
  preview_callback x s = (s', Some f) ->
  below_floor x = true /\ afk_gate x = false /\
  (exists t0, silence_start_time s = Some t0 /\
              silence_threshold_seconds x <= now x - t0) /\
  silence_start_time s' = None.
Proof.
  unfold preview_callback.
  destruct (below_floor x) eqn:Hb.
  - destruct (silence_start_time s) as [t0|] eqn:Hs.
    + destruct (Qle_bool _ 0) eqn:Hr.
      * destruct (afk_gate x) eqn:Ha.
        -- intros H; inversion H.
        -- intros H; inversion H; subst; simpl.
           repeat split; auto. exists t0. split; [reflexivity|].
           apply Qle_bool_iff in Hr. lra.
      * intros H; inversion H.
    + intros H; inversion H.
  - intros H; inversion H.
Qed.

Lemma started_since_step t x s :
  started_since t s -> t <= now x -> started_since t (fst (preview_callback x s)).
Proof.
  intros Hs Hx. unfold preview_callback.
  destruct (below_floor x).
  - destruct (silence_start_time s) as [t1|] eqn:E.
    + destruct (Qle_bool _ 0).
      * destruct (afk_gate x); simpl; intros t0 H; inversion H; subst; assumption.
      * simpl. intros t0 H. inversion H; subst. now apply Hs.
    + simpl. intros t0 H. inversion H; subst. assumption.
  - simpl. intros t0 H. discriminate H.
Qed.

Lemma run_cons x xs s :
  fst (run (x :: xs) s) = fst (run xs (fst (preview_callback x s))).
Proof.
  simpl. destruct (preview_callback x s) as [s1 f]. simpl.
  now destruct (run xs s1).
Qed.

Lemma started_since_run t xs : forall s,
  started_since t s -> Forall (fun x => t <= now x) xs ->
  started_since t (fst (run xs s)).
Proof.
  induction xs as [|x xs IH]; intros s Hs Hf; [exact Hs|].
  apply Forall_cons_iff in Hf as [Hx Hf].
  rewrite run_cons. apply IH; [|exact Hf]. now apply started_since_step.
Qed.

End MonitorFacts.

(** C2, as stated, fails: in one unbroken silence, with the AFK state
    unchanged, the trigger fires at 300 s and again at 601 s. *)
Lemma silence_trigger_fires_again :
  let xs := [block 0 0; block 300 0; block 301 0; block 601 0] in
  snd (Monitor.run xs monitor_idle)
  = [None; Some Monitor.Advance; None; Some Monitor.Advance] /\
  Forall (fun x => Monitor.below_floor x = true) xs /\
  Forall (fun x => Monitor.afk_gate x = false) xs.
Proof.
  split; [reflexivity|]. split; repeat constructor.
Qed.

(** C2, amended. The trigger fires only on a block below the noise floor,
    with the AFK gate inactive, when the time since [silence_start_time]
    has reached the configured duration, and firing clears
    [silence_start_time].  Hence the block right after a firing never
    fires, and two firings are at least the configured duration apart
    (the clock not going back): in an unbroken silence the trigger fires
    again after each further full duration. *)
Theorem silence_trigger_spacing
    (a b : Monitor.sample) (mid : list Monitor.sample)
    (s1 s2 s4 : Monitor.state) (fa fb : Monitor.trigger) :
  Monitor.preview_callback a s1 = (s2, Some fa) ->
  Monitor.preview_callback b (fst (Monitor.run mid s2)) = (s4, Some fb) ->
  Forall (fun x => Monitor.now a <= Monitor.now x) (mid ++ [b]) ->
  (Monitor.below_floor a = true /\ Monitor.afk_gate a = false /\
   exists t0, Monitor.silence_start_time s1 = Some t0 /\
              Monitor.silence_threshold_seconds a <= Monitor.now a - t0) /\
  Monitor.silence_start_time s2 = None /\
  Monitor.silence_start_time s4 = None /\
  mid <> [] /\
  Monitor.silence_threshold_seconds b <= Monitor.now b - Monitor.now a.
Proof.
  intros Ha Hb Hclock.
  apply fire_inversion in Ha as (Ha1 & Ha2 & Ha3 & Ha4).
  apply fire_inversion in Hb as (Hb1 & Hb2 & (t0 & Hb3 & Hb5) & Hb4).
  apply Forall_app in Hclock as [Hmid Hlast].
  apply Forall_inv in Hlast.
  assert (Hsince : started_since (Monitor.now a) (fst (Monitor.run mid s2))).
  { apply started_since_run; [|exact Hmid].
    intros t1 H. rewrite Ha4 in H. discriminate H. }
  repeat split; try assumption.
  - intros ->. simpl in Hb3. rewrite Ha4 in Hb3. discriminate Hb3.
  - specialize (Hsince t0 Hb3). lra.
Qed.

Lemma silence_trigger_spacing_witness :
  (Monitor.below_floor (block 300 0) = true /\
   Monitor.afk_gate (block 300 0) = false /\
   exists t0, Some 0 = Some t0 /\
              Monitor.silence_threshold_seconds (block 300 0) <= 300 - t0) /\
  @None Q = None /\ @None Q = None /\
  [block 301 0] <> [] /\
  Monitor.silence_threshold_seconds (block 601 0) <= 601 - 300.
Proof.
  refine (silence_trigger_spacing (block 300 0) (block 601 0) [block 301 0]
            {| Monitor.last_silence_time := 0; Monitor.last_sound_time := 0;
               Monitor.silence_start_time := Some 0;
               Monitor.monitored_time_started := true |}
            {| Monitor.last_silence_time := 300; Monitor.last_sound_time := 0;
               Monitor.silence_start_time := None;
               Monitor.monitored_time_started := true |}
            {| Monitor.last_silence_time := 601; Monitor.last_sound_time := 0;
               Monitor.silence_start_time := None;
               Monitor.monitored_time_started := true |}
            Monitor.Advance Monitor.Advance _ _ _).
  - reflexivity.
  - reflexivity.
  - repeat constructor; discriminate.
Defined.

(** The scenario of the specification: five seconds of silence fire once;
    a block above the floor before that restarts the count. *)
Example five_seconds_scenario :
  let quiet t := {| Monitor.now := t; Monitor.volume_norm := 5 # 100;
     Monitor.silence_threshold := 1 # 10; Monitor.sound_threshold := 1 # 2;
     Monitor.silence_minutes := 5 # 60;
     Monitor.afk_enabled := false; Monitor.is_afk := false;
     Monitor.is_monitoring := true; Monitor.is_paused := false |} in
  let loud t := {| Monitor.now := t; Monitor.volume_norm := 1 # 2;
     Monitor.silence_threshold := 1 # 10; Monitor.sound_threshold := 1 # 2;
     Monitor.silence_minutes := 5 # 60;
     Monitor.afk_enabled := false; Monitor.is_afk := false;
     Monitor.is_monitoring := true; Monitor.is_paused := false |} in
  snd (Monitor.run [quiet 0; quiet 1; quiet 2; quiet 3; quiet 4; quiet 5; quiet 6]
         monitor_idle)
  = [None; None; None; None; None; Some Monitor.Advance; None] /\
  snd (Monitor.run [quiet 0; quiet 1; quiet 2; loud 3; quiet 4; quiet 5; quiet 6]
         monitor_idle)
  = [None; None; None; None; None; None; None].
Proof. split; reflexivity. Qed.

(** C6, as stated, fails: a block of norm [0.3], between the floors [0.1]
    and [0.5], moves [last_sound_time] to the time of the block. *)
Lemma block_between_floors_resets_sound_timer :
  let x := block 10 (3 # 10) in
  let s' := fst (Monitor.preview_callback x monitor_idle) in
  Monitor.silence_threshold x < Monitor.volume_norm x < Monitor.sound_threshold x /\
  Monitor.last_sound_time s' = 10 /\
  ~ Monitor.last_sound_time s' == Monitor.last_sound_time monitor_idle.
Proof.
  repeat split; try reflexivity. discriminate.
Qed.

(** C6, amended. A block whose norm lies strictly between the noise floor
    and the sound floor counts as sound: it sets [last_sound_time] to the
    time of the block and clears [silence_start_time]; it leaves
    [last_silence_time] and the session-timer flag as they were and fires
    no trigger. *)
Theorem block_between_floors (x : Monitor.sample) (s : Monitor.state) :
  Monitor.silence_threshold x < Monitor.volume_norm x < Monitor.sound_threshold x ->
  let '(s', fired) := Monitor.preview_callback x s in
  Monitor.last_sound_time s' = Monitor.now x /\
  Monitor.last_silence_time s' = Monitor.last_silence_time s /\
  Monitor.silence_start_time s' = None /\
  Monitor.monitored_time_started s' = Monitor.monitored_time_started s /\
  fired = None.
Proof.
  intros [Hlo Hhi]. unfold Monitor.preview_callback.
  assert (Hb : Monitor.below_floor x = false)
    by (apply below_floor_false; now apply Qlt_le_weak).
  rewrite Hb.
  destruct (Qlt_le_dec (Monitor.sound_threshold x) (Monitor.volume_norm x)) as [H|H].
  - exfalso. apply (Qlt_irrefl (Monitor.volume_norm x)). now apply Qlt_trans with (Monitor.sound_threshold x).
  - rewrite andb_false_r. simpl.
    repeat split; try reflexivity.
    now destruct (Monitor.is_monitoring x && negb (Monitor.is_paused x)).
Qed.

Lemma block_between_floors_witness :
  let '(s', fired) := Monitor.preview_callback (block 10 (3 # 10)) monitor_idle in
  Monitor.last_sound_time s' = 10 /\
  Monitor.last_silence_time s' = 0 /\
  Monitor.silence_start_time s' = None /\
  Monitor.monitored_time_started s' = true /\
  fired = None.
Proof.
  apply (block_between_floors (block 10 (3 # 10)) monitor_idle).
  split; reflexivity.
Defined.

(* ================================================================== *)
(** * Further properties of the code                                   *)
(* ================================================================== *)

(** ** The ledger: what a lookup depends on *)

Section LookupFacts.
Import Ledger.

Lemma first_match_none st url days :
  first_match st url days = None ->
  forall day counters ts v,
    In day days -> Dict.get day st = Some (Day counters ts) ->
    Dict.get url (timestamps_of ts) = Some v -> False.
Proof.
  induction days as [|d days IH]; simpl; intros H day c ts v Hin Hget Hu;
    [contradiction|].
  destruct (Dict.get d st) as [[|c' ts']|] eqn:Hd.
  - destruct Hin as [->|Hin]; [congruence|]. eapply IH; eassumption.
  - destruct (Dict.get url (timestamps_of ts')) eqn:Hu'; [discriminate|].
    destruct Hin as [->|Hin]; [congruence|]. eapply IH; eassumption.
  - destruct Hin as [->|Hin]; [congruence|]. eapply IH; eassumption.
Qed.

Lemma first_match_max st url days v :
  StronglySorted (fun a b => String.leb b a = true) days ->
  first_match st url days = Some v ->
  exists day counters ts,
    In day days /\ Dict.get day st = Some (Day counters ts) /\
    Dict.get url (timestamps_of ts) = Some v /\
    forall day' counters' ts' v',
      In day' days -> Dict.get day' st = Some (Day counters' ts') ->
      Dict.get url (timestamps_of ts') = Some v' -> String.leb day' day = true.
Proof.
  induction days as [|d days IH]; simpl; intros Hs H; [discriminate|].
  apply StronglySorted_inv in Hs as [Hs Hd]. rewrite Forall_forall in Hd.
  assert (Hrec : first_match st url days = Some v ->
            (forall c ts w, Dict.get d st = Some (Day c ts) ->
                            Dict.get url (timestamps_of ts) = Some w -> False) ->
            exists day counters ts,
              (d = day \/ In day days) /\ Dict.get day st = Some (Day counters ts) /\
              Dict.get url (timestamps_of ts) = Some v /\
              forall day' counters' ts' v',
                d = day' \/ In day' days -> Dict.get day' st = Some (Day counters' ts') ->
                Dict.get url (timestamps_of ts') = Some v' -> String.leb day' day = true).
  { intros H' Hno. destruct (IH Hs H') as (day & c & ts & Hin & Hg & Hu & Hmax).
    exists day, c, ts. repeat split; auto.
    intros day' c' ts' v' [<-|Hin'] Hg' Hu'; [exfalso; eauto|eauto]. }
  destruct (Dict.get d st) as [[|c ts]|] eqn:Hget.
  - apply Hrec; [exact H|]. intros; discriminate.
  - destruct (Dict.get url (timestamps_of ts)) as [w|] eqn:Hu.
    + inversion H; subst w. exists d, c, ts. repeat split; auto.
      intros day' c' ts' v' [<-|Hin'] _ _.
      * destruct (String.leb_total d d); assumption.
      * now apply Hd.
    + apply Hrec; [exact H|]. intros c' ts' w Hg Hw.
      inversion Hg; subst. congruence.
  - apply Hrec; [exact H|]. intros; discriminate.
Qed.

Lemma status_of_some v : status_of (Some v) <> NoRecord.
Proof. simpl. now destruct (Qeq_bool v (-1)). Qed.

Lemma no_record_iff st url :
  get_saved_timestamp_status st url = NoRecord <->
  forall day v, ~ holds st (CleanUrl._clean_url url) day v.
Proof.
  unfold get_saved_timestamp_status. split.
  - intros H day v (Hne & c & ts & Hg & Hu).
    destruct (first_match st _ (sorted_days st)) as [w|] eqn:Hf.
    + now apply status_of_some in H.
    + eapply first_match_none; try eassumption.
      apply in_sorted_days. split; [eapply get_in_keys; eassumption|exact Hne].
  - intros Hno.
    destruct (first_match st _ (sorted_days st)) as [w|] eqn:Hf; [|reflexivity].
    apply first_match_some in Hf as (day & c & ts & Hin & Hg & Hu).
    apply in_sorted_days in Hin as [_ Hne].
    exfalso. apply (Hno day w). split; [exact Hne|]. eauto.
Qed.

(** Two ledgers whose buckets record the same values for a ref answer the
    lookup for it alike. *)
Lemma lookup_ext st st' url :
  (forall day v, holds st (CleanUrl._clean_url url) day v <->
                 holds st' (CleanUrl._clean_url url) day v) ->
  get_saved_timestamp_status st url = get_saved_timestamp_status st' url.
Proof.
  intros Heq.
  destruct (first_match st (CleanUrl._clean_url url) (sorted_days st)) as [v|] eqn:Hf.
  - pose proof Hf as Hf'.
    apply first_match_max in Hf' as (day & c & ts & Hin & Hg & Hu & Hmax);
      [|apply sorted_days_desc].
    apply in_sorted_days in Hin as [_ Hne].
    assert (Hh : holds st (CleanUrl._clean_url url) day v)
      by (split; [exact Hne|eauto]).
    assert (Hm : forall day' v', holds st (CleanUrl._clean_url url) day' v' ->
                                 String.leb day' day = true).
    { intros day' v' (Hne' & c' & ts' & Hg' & Hu').
      eapply Hmax; try eassumption.
      apply in_sorted_days. split; [eapply get_in_keys; eassumption|exact Hne']. }
    rewrite (lookup_newest st url day v Hh Hm).
    symmetry. apply (lookup_newest st' url day v).
    + now apply Heq.
    + intros day' v' H'. apply (Hm day' v'). now apply Heq.
  - assert (H : get_saved_timestamp_status st url = NoRecord)
      by (unfold get_saved_timestamp_status; now rewrite Hf).
    rewrite H. symmetry. apply no_record_iff.
    intros day v H'. apply Heq in H'. revert H'. now apply no_record_iff.
Qed.

Lemma in_get_nodup {V} (d : Dict.dict V) k v :
  NoDup (Dict.keys d) -> In (k, v) d -> Dict.get k d = Some v.
Proof.
  induction d as [|[k0 v0] d IH]; simpl; intros Hnd Hin; [contradiction|].
  inversion Hnd as [|? ? Hnot Hnd']; subst.
  destruct Hin as [Heq|Hin].
  - inversion Heq; subst. now rewrite String.eqb_refl.
  - destruct (String.eqb_spec k k0) as [->|Hne].
    + exfalso. apply Hnot. unfold Dict.keys. apply in_map_iff.
      exists (k0, v). auto.
    + now apply IH.
Qed.

Lemma get_in {V} (d : Dict.dict V) k v : Dict.get k d = Some v -> In (k, v) d.
Proof.
  induction d as [|[k0 v0] d IH]; simpl; [discriminate|].
  destruct (String.eqb_spec k k0) as [->|Hne].
  - intros H; inversion H; auto.
  - auto.
Qed.

Lemma get_saved_timestamp_from_none url st :
  get_saved_timestamp_from url st = None <->
  forall day counters ts v,
    In (day, Day counters ts) st -> day <> "url_stats"%string ->
    Dict.get url (timestamps_of ts) = Some v -> False.
Proof.
  induction st as [|[d data] st IH]; simpl.
  - split; [intros _ ? ? ? ? []|reflexivity].
  - destruct data as [|c ts].
    + rewrite IH. split; intros H day c' ts' v Hin; [|now eauto].
      destruct Hin as [Heq|Hin]; [discriminate Heq|eauto].
    + destruct (String.eqb_spec d "url_stats") as [->|Hne].
      * rewrite IH. split; intros H day c' ts' v Hin; [|now eauto].
        destruct Hin as [Heq|Hin]; [|eauto].
        inversion Heq; subst. intros Hd. now destruct Hd.
      * destruct (Dict.get url (timestamps_of ts)) as [w|] eqn:Hu.
        -- split; [discriminate|]. intros H. exfalso. eapply (H d c ts w); auto.
        -- rewrite IH. split; intros H day c' ts' v Hin; [|now eauto].
           destruct Hin as [Heq|Hin]; [|eauto].
           inversion Heq; subst. congruence.
Qed.

End LookupFacts.

(** X1. On a ledger with one entry per key, the two lookups agree on
    whether a ref was ever recorded: [get_saved_timestamp] answers [None]
    exactly when [get_saved_timestamp_status] does. *)
Theorem lookups_agree_on_absence (st : Ledger.stats) (url : string) :
  NoDup (Dict.keys st) ->
  (Ledger.get_saved_timestamp st url = None <->
   Ledger.get_saved_timestamp_status st url = Ledger.NoRecord).
Proof.
  intros Hnd. unfold Ledger.get_saved_timestamp.
  rewrite get_saved_timestamp_from_none, no_record_iff. split.
  - intros H day v (Hne & c & ts & Hg & Hu).
    apply (H day c ts v); auto. now apply get_in.
  - intros H day c ts v Hin Hne Hu. apply (H day v).
    split; [exact Hne|]. exists c, ts. split; [|exact Hu].
    now apply in_get_nodup.
Qed.

Lemma lookups_agree_on_absence_witness :
  Ledger.get_saved_timestamp ledger_2024 "C:\videos\a.mp4" = None <->
  Ledger.get_saved_timestamp_status ledger_2024 "C:\videos\a.mp4" = Ledger.NoRecord.
Proof.
  apply lookups_agree_on_absence.
  repeat constructor; simpl; intuition discriminate.
Defined.

(** ** The ledger: writes *)

Section WriteFacts.
Import Ledger.

Lemma store_some st today url v st' :
  store st today url v = Some st' ->
  exists counters ts,
    (Dict.get today st = Some (Day counters ts) \/
     Dict.get today st = None /\ counters = [] /\ ts = Some []) /\
    Dict.get today st' = Some (Day counters (Some (Dict.set url v (timestamps_of ts)))).
Proof.
  unfold store, Dict.mem.
  destruct (Dict.get today st) as [[|c ts]|] eqn:Ht; cbn.
  - rewrite Ht. intros H; discriminate H.
  - rewrite Ht. intros H; inversion H; subst.
    exists c, ts. split; [now left|apply get_set_same].
  - rewrite get_set_same. intros H; inversion H; subst.
    exists [], (Some []). split; [right; auto|apply get_set_same].
Qed.

Lemma store_frame st today url v st' url' :
  url' <> url ->
  store st today url v = Some st' ->
  forall day w, holds st' url' day w <-> holds st url' day w.
Proof.
  intros Hne Hstore day w.
  destruct (String.eqb_spec day today) as [->|Hd].
  - destruct (store_some _ _ _ _ _ Hstore) as (c & ts & Hold & Hnew).
    unfold holds. rewrite Hnew.
    destruct Hold as [Hold|(Hold & -> & ->)]; rewrite Hold.
    + split; intros (Hn & c' & ts' & Hg & Hu); (split; [exact Hn|]);
        inversion Hg; subst; do 2 eexists; (split; [reflexivity|]); simpl in *.
      * now rewrite get_set_other in Hu by exact Hne.
      * now rewrite get_set_other by exact Hne.
    + split; intros (Hn & c' & ts' & Hg & Hu); [|discriminate Hg].
      inversion Hg; subst. simpl in Hu.
      apply String.eqb_neq in Hne. rewrite Hne in Hu. discriminate Hu.
  - unfold holds. now rewrite (store_other_days _ _ _ _ _ _ Hd Hstore).
Qed.




End WriteFacts.

(** X2. Recording a position or a finished mark for one canonical ref
    leaves the saved status of every url with another canonical ref as it
    was. *)
Theorem store_keeps_other_refs
    (st st' : Ledger.stats) (today url other : string) (v : Q) :
  CleanUrl._clean_url other <> CleanUrl._clean_url url ->
  Ledger.store st today (CleanUrl._clean_url url) v = Some st' ->
  Ledger.get_saved_timestamp_status st' other
  = Ledger.get_saved_timestamp_status st other.
Proof.
  intros Hne Hstore. apply lookup_ext. intros day w.
  exact (store_frame _ _ _ _ _ _ Hne Hstore day w).
Qed.

Lemma store_keeps_other_refs_witness :
  exists st',
    Ledger.store ledger_2024 "2024-03-02" (CleanUrl._clean_url "C:\videos\a.mp4") 12
    = Some st' /\
    Ledger.get_saved_timestamp_status st'
      "https://www.bilibili.com/video/BV1xx411c7mD?t=3"
    = Ledger.get_saved_timestamp_status ledger_2024
        "https://www.bilibili.com/video/BV1xx411c7mD?t=3".
Proof.
  eexists. split; [reflexivity|].
  apply (store_keeps_other_refs ledger_2024 _ "2024-03-02" "C:\videos\a.mp4" _ 12).
  - discriminate.
  - reflexivity.
Defined.


(** What the counter [k] of day [today] holds. *)
Lemma update_stats_today today e trig skip st :
  exists counters ts,
    Dict.get today (Stats.update_stats today e trig skip st)
    = Some (Ledger.Day counters (Some ts)) /\
    ts = Ledger.timestamps_of
           (match Dict.get today st with Some (Ledger.Day _ t) => t | _ => None end).
Proof.
  unfold Stats.update_stats.
  destruct (Dict.get today st) as [[|c ts]|]; rewrite get_set_same; eauto.
Qed.

(** X4. [update_stats] changes no saved status, and after it today's
    entry is a dict with timestamps, so that a write for today does not
    raise. *)
Theorem update_stats_keeps_statuses
    (today : string) (time_elapsed : Q) (triggered skipped : bool) (st : Ledger.stats) :
  (forall url,
      Ledger.get_saved_timestamp_status
        (Stats.update_stats today time_elapsed triggered skipped st) url
      = Ledger.get_saved_timestamp_status st url) /\
  (forall ref v,
      Ledger.store (Stats.update_stats today time_elapsed triggered skipped st) today ref v
      <> None).
Proof.
  split.
  - intros url. apply lookup_ext. intros day v. unfold holds.
    destruct (String.eqb_spec day today) as [->|Hd].
    + unfold Stats.update_stats.
      destruct (Dict.get today st) as [[|c ts]|] eqn:Ht; rewrite get_set_same;
        split; intros (Hn & c' & ts' & Hg & Hu); try discriminate Hg;
        inversion Hg; subst; simpl in Hu; try discriminate Hu;
        (split; [exact Hn|]); do 2 eexists; (split; [reflexivity|]); exact Hu.
    + unfold Stats.update_stats.
      destruct (Dict.get today st) as [[|c ts]|]; now rewrite get_set_other.
  - intros ref v.
    destruct (update_stats_today today time_elapsed triggered skipped st)
      as (c & ts & Hg & _).
    unfold Ledger.store, Dict.mem. rewrite Hg, Hg. discriminate.
Qed.

(** X5. [update_stats] adds the elapsed time to today's total, and one to
    the trigger and skip counts exactly when asked to; counters it is not
    asked to change keep their value.  A missing counter counts as 0. *)
Theorem update_stats_counts
    (today : string) (time_elapsed : Q) (triggered skipped : bool) (st : Ledger.stats) :
  let before k :=
    match Dict.get today st with
    | Some (Ledger.Day c _) => Stats.counter k c
    | _ => 0
    end in
  let after k :=
    match Dict.get today (Stats.update_stats today time_elapsed triggered skipped st) with
    | Some (Ledger.Day c _) => Stats.counter k c
    | _ => 0
    end in
  after "total_monitored_time"%string
  = before "total_monitored_time"%string + time_elapsed /\
  after "trigger_count"%string
  = (if triggered then before "trigger_count"%string + 1
     else before "trigger_count"%string) /\
  after "video_skips"%string
  = (if skipped then before "video_skips"%string + 1
     else before "video_skips"%string).
Proof.
  intros before after. unfold after, before, Stats.update_stats.
  assert (Hc : forall c : Dict.dict Q,
    let c1 := Dict.set "total_monitored_time"
                (Stats.counter "total_monitored_time" c + time_elapsed) c in
    let c2 := if triggered
              then Dict.set "trigger_count" (Stats.counter "trigger_count" c1 + 1) c1
              else c1 in
    let c3 := if skipped
              then Dict.set "video_skips" (Stats.counter "video_skips" c2 + 1) c2
              else c2 in
    Stats.counter "total_monitored_time" c3
    = Stats.counter "total_monitored_time" c + time_elapsed /\
    Stats.counter "trigger_count" c3
    = (if triggered then Stats.counter "trigger_count" c + 1
       else Stats.counter "trigger_count" c) /\
    Stats.counter "video_skips" c3
    = (if skipped then Stats.counter "video_skips" c + 1
       else Stats.counter "video_skips" c)).
  { intros c. unfold Stats.counter.
    destruct triggered, skipped; simpl;
      repeat (rewrite ?get_set_same; rewrite ?get_set_other by discriminate);
      repeat split; reflexivity. }
  destruct (Dict.get today st) as [[|c ts]|]; rewrite get_set_same; apply Hc.
Qed.

(** ** Saving and looking up *)

(** X6. A save that returns is seen by the next lookup: when saving is on,
    the probes return, today's entry can be written, and no bucket that
    records the ref is dated after today, the status of the current url
    after the save is [Finished] if the item was judged finished, and the
    probed position if that is above zero. *)
Theorem save_then_lookup
    (current : string) (h : Backend.handles) (finished_percentage : Z)
    (p : Progress.save_probe) (st : Ledger.stats) (timestamp : Q) (finished : bool) :
  current <> ""%string ->
  fst (Backend.get_video_timestamp h (Progress.timestamp_reply p)
         (Progress.timestamp_script p)) = Backend.Returns timestamp ->
  fst (Backend.is_video_finished h finished_percentage (Progress.finished_query p))
  = Backend.Returns finished ->
  finished = true \/ 0 < timestamp ->
  Progress.today p <> "url_stats"%string ->
  Dict.get (Progress.today p) st <> Some Ledger.NotADict ->
  (forall day v, holds st (CleanUrl._clean_url current) day v ->
                 String.leb day (Progress.today p) = true) ->
  exists st',
    fst (Progress.save_current_timestamp true (Some current) h finished_percentage p st)
    = Backend.Returns st' /\
    Ledger.get_saved_timestamp_status st' current
    = (if finished then Ledger.Finished else Ledger.status_of (Some timestamp)).
Proof.
  intros Hcur Hts Hfin Hwhat Hday Hdict Hmax.
  assert (Hstore : forall v, exists st',
            Ledger.store st (Progress.today p) (CleanUrl._clean_url current) v = Some st').
  { intros v. unfold Ledger.store, Dict.mem.
    destruct (Dict.get (Progress.today p) st) as [[|c ts]|] eqn:Ht.
    - now destruct Hdict.
    - rewrite Ht. eauto.
    - rewrite get_set_same. eauto. }
  assert (Hlook : forall v st',
            Ledger.store st (Progress.today p) (CleanUrl._clean_url current) v = Some st' ->
            Ledger.get_saved_timestamp_status st' current = Ledger.status_of (Some v)).
  { intros v st' Hs. apply (lookup_newest st' current (Progress.today p)).
    - eapply store_holds; eassumption.
    - intros day' v' (Hd & c & ts & Hget & Hu).
      destruct (String.eqb_spec day' (Progress.today p)) as [->|Hdiff].
      + destruct (String.leb_total (Progress.today p) (Progress.today p)); assumption.
      + rewrite (store_other_days _ _ _ _ _ _ Hdiff Hs) in Hget.
        apply (Hmax day' v'). split; [exact Hd|]. eauto. }
  unfold Progress.save_current_timestamp, Progress.falsy_url.
  apply String.eqb_neq in Hcur. rewrite Hcur. simpl negb. simpl orb. cbv iota.
  destruct (Backend.get_video_timestamp _ _ _) as [r1 l1]. simpl in Hts. subst r1.
  destruct (Backend.is_video_finished _ _ _) as [r2 l2]. simpl in Hfin. subst r2.
  simpl. destruct finished.
  - destruct (Hstore (-1)) as [st' Hs]. exists st'. rewrite Hs. simpl.
    split; [reflexivity|]. exact (Hlook _ _ Hs).
  - destruct Hwhat as [Hf|Hpos]; [discriminate Hf|].
    destruct (Qlt_le_dec 0 timestamp) as [_|Hle];
      [|exfalso; exact (Qlt_not_le _ _ Hpos Hle)].
    destruct (Hstore timestamp) as [st' Hs]. exists st'. rewrite Hs. simpl.
    split; [reflexivity|]. exact (Hlook _ _ Hs).
Qed.

Lemma save_then_lookup_witness :
  exists st',
    fst (Progress.save_current_timestamp true
           (Some "https://www.bilibili.com/video/BV1xx411c7mD?t=3"%string) mpv_running 95
           {| Progress.today := "2024-03-02";
              Progress.timestamp_reply := Backend.IpcData 30;
              Progress.timestamp_script := Backend.ScriptNull;
              Progress.finished_query := all_timeouts |}
           ledger_2024)
    = Backend.Returns st' /\
    Ledger.get_saved_timestamp_status st'
      "https://www.bilibili.com/video/BV1xx411c7mD?t=3"
    = Ledger.Position 30.
Proof.
  refine (save_then_lookup "https://www.bilibili.com/video/BV1xx411c7mD?t=3"
            mpv_running 95 _ ledger_2024 30 false _ _ _ _ _ _ _).
  - discriminate.
  - reflexivity.
  - reflexivity.
  - right. reflexivity.
  - discriminate.
  - discriminate.
  - intros day v H. apply ledger_2024_holders in H. subst. reflexivity.
Defined.

(** X7. Once the external player process has exited, [is_video_finished]
    answers [True] whatever position and duration are read (from a page
    that answers, if a browser is open as well): the ended-check alone
    decides. *)
Theorem exited_player_counts_as_finished
    (h : Backend.handles) (finished_percentage : Z) (p : Backend.finished_probe) :
  Backend.mpv_process h = Some true ->
  (Backend.browser h = true ->
   Backend.position_script p <> Backend.ScriptTypeError /\
   Backend.position_script p <> Backend.ScriptOtherError /\
   Backend.duration_script p <> Backend.ScriptTypeError /\
   Backend.duration_script p <> Backend.ScriptOtherError) ->
  fst (Backend.is_video_finished h finished_percentage p) = Backend.Returns true.
Proof.
  intros Hp Hb.
  unfold Backend.is_video_finished, Backend.get_video_timestamp,
    Backend.get_video_duration, Backend.is_video_ended, Backend.script_number.
  rewrite Hp.
  destruct (Backend.browser h).
  - destruct (Hb eq_refl) as (H1 & H2 & H3 & H4).
    destruct (Backend.position_script p); try congruence;
      destruct (Backend.duration_script p); try congruence; simpl;
      repeat match goal with
        | |- context [if ?c then _ else _] => destruct c
        end; reflexivity.
  - simpl. reflexivity.
Qed.

Lemma exited_player_counts_as_finished_witness :
  fst (Backend.is_video_finished mpv_exited 95 all_timeouts) = Backend.Returns true.
Proof.
  apply exited_player_counts_as_finished; [reflexivity|discriminate].
Defined.

(** X8. With the external player running and answering, the percentage
    rule is monotone in the position: if a position counts as finished for
    a duration and a threshold, so does every later position. *)
Theorem finished_is_monotone_in_position
    (h : Backend.handles) (finished_percentage : Z) (p p' : Backend.finished_probe)
    (pos pos' : Q) :
  Backend.mpv_process h = Some false ->
  Backend.mpv_ipc_path h = true ->
  Backend.position_reply p = Backend.IpcData pos ->
  Backend.position_reply p' = Backend.IpcData pos' ->
  Backend.duration_reply p' = Backend.duration_reply p ->
  pos <= pos' ->
  fst (Backend.is_video_finished h finished_percentage p) = Backend.Returns true ->
  fst (Backend.is_video_finished h finished_percentage p') = Backend.Returns true.
Proof.
  intros Hp Hi Hpos Hpos' Hdur Hle.
  unfold Backend.is_video_finished, Backend.get_video_timestamp,
    Backend.get_video_duration, Backend.is_video_ended, Backend.query_mpv.
  rewrite Hp, Hi, Hpos, Hpos', Hdur.
  destruct (Backend.duration_reply p) as [d| | | | |]; simpl; try discriminate.
  destruct (Qlt_le_dec 0 d) as [Hd|Hd]; simpl; [|discriminate].
  destruct (Qle_bool (inject_Z finished_percentage) (pos / d * 100)) eqn:E;
    simpl; [|discriminate].
  intros _. apply Qle_bool_iff in E.
  assert (E' : Qle_bool (inject_Z finished_percentage) (pos' / d * 100) = true).
  { apply Qle_bool_iff. eapply Qle_trans; [exact E|].
    apply Qmult_le_compat_r; [|discriminate].
    unfold Qdiv. apply Qmult_le_compat_r; [exact Hle|].
    apply Qlt_le_weak, Qinv_lt_0_compat, Hd. }
  now rewrite E'.
Qed.

Lemma finished_is_monotone_in_position_witness :
  let probe pos :=
    {| Backend.position_reply := Backend.IpcData pos;
       Backend.position_script := Backend.ScriptNull;
       Backend.duration_reply := Backend.IpcData 100;
       Backend.duration_script := Backend.ScriptNull;
       Backend.ended_script := Backend.ScriptNull |} in
  fst (Backend.is_video_finished mpv_running 95 (probe 99)) = Backend.Returns true.
Proof.
  intros probe.
  apply (finished_is_monotone_in_position mpv_running 95 (probe 96) (probe 99) 96 99);
    try reflexivity; discriminate.
Defined.

(** X9. Both probes fail soft: when the request to the external player
    ends without data, in a timeout, an I/O error or unreadable JSON, or the
    page has no video or the browser is gone, [get_video_timestamp] and
    [get_video_duration] return 0 without raising, and log at most one
    line, a warning. *)
Theorem probes_fail_soft (h : Backend.handles) (o : Backend.ipc_outcome)
    (js : Backend.script_outcome) :
  In o [Backend.IpcNoData; Backend.IpcTimeout; Backend.IpcIOError; Backend.IpcBadJson] ->
  In js [Backend.ScriptNull; Backend.ScriptWebDriverException] ->
  exists lg1 lg2,
    Backend.get_video_timestamp h o js = (Backend.Returns 0, lg1) /\
    Backend.get_video_duration h o js = (Backend.Returns 0, lg2) /\
    (List.length lg1 <= 1)%nat /\ (List.length lg2 <= 1)%nat /\
    forallb Backend.is_warning (lg1 ++ lg2) = true.
Proof.
  intros Ho Hjs.
  unfold Backend.get_video_timestamp, Backend.get_video_duration,
    Backend.query_mpv, Backend.script_number.
  simpl in Ho, Hjs.
  destruct (Backend.mpv_process h) as [[|]|].
  - destruct (Backend.browser h);
      [destruct Hjs as [<-|[<-|[]]]|]; do 2 eexists;
      repeat split; simpl; try reflexivity; lia.
  - destruct (Backend.mpv_ipc_path h);
      [destruct Ho as [<-|[<-|[<-|[<-|[]]]]]|]; simpl; do 2 eexists;
      repeat split; simpl; try reflexivity; lia.
  - destruct (Backend.browser h);
      [destruct Hjs as [<-|[<-|[]]]|]; do 2 eexists;
      repeat split; simpl; try reflexivity; lia.
Qed.

Lemma probes_fail_soft_witness :
  exists lg1 lg2,
    Backend.get_video_timestamp mpv_running Backend.IpcBadJson
      Backend.ScriptWebDriverException = (Backend.Returns 0, lg1) /\
    Backend.get_video_duration mpv_running Backend.IpcBadJson
      Backend.ScriptWebDriverException = (Backend.Returns 0, lg2) /\
    (List.length lg1 <= 1)%nat /\ (List.length lg2 <= 1)%nat /\
    forallb Backend.is_warning (lg1 ++ lg2) = true.
Proof.
  apply probes_fail_soft; simpl; auto.
Defined.

(** ** The silence monitor: when it fires and when it cannot *)

Section TriggerFacts.
Import Monitor.

Lemma run_snd_cons x xs s :
  snd (run (x :: xs) s)
  = snd (preview_callback x s) :: snd (run xs (fst (preview_callback x s))).
Proof.
  simpl. destruct (preview_callback x s) as [s1 f]. simpl.
  now destruct (run xs s1).
Qed.

Lemma run_app xs ys s : fst (run (xs ++ ys) s) = fst (run ys (fst (run xs s))).
Proof.
  revert s. induction xs as [|x xs IH]; intros s; [reflexivity|].
  rewrite <- app_comm_cons, !run_cons. apply IH.
Qed.

Lemma held_back_no_fire x s : held_back x -> snd (preview_callback x s) = None.
Proof.
  intros H. unfold preview_callback.
  destruct (below_floor x); [|reflexivity].
  destruct (silence_start_time s); [|reflexivity].
  destruct (Qle_bool _ 0); [|reflexivity].
  destruct (afk_gate x) eqn:Ha; [reflexivity|].
  destruct H as [H|[Hm Hp]]; [congruence|].
  now rewrite Hm, Hp.
Qed.

Lemma eligible_step x s t0 :
  eligible x -> silence_start_time s = Some t0 ->
  (silence_threshold_seconds x <= now x - t0 /\
   exists f, snd (preview_callback x s) = Some f) \/
  (~ silence_threshold_seconds x <= now x - t0 /\
   snd (preview_callback x s) = None /\
   silence_start_time (fst (preview_callback x s)) = Some t0).
Proof.
  intros (Hb & Ha & Hp) Hs. unfold preview_callback. rewrite Hb, Hs, Ha.
  destruct (Qle_bool _ 0) eqn:E.
  - left. apply Qle_bool_iff in E. split; [lra|].
    destruct (is_monitoring x) eqn:Hm; simpl.
    + rewrite (Hp eq_refl). simpl. eauto.
    + eauto.
  - right. split; [|split; reflexivity].
    intros H. assert (E' : Qle_bool (silence_threshold_seconds x - (now x - t0)) 0 = true)
      by (apply Qle_bool_iff; lra).
    congruence.
Qed.

Lemma eligible_run xs : forall s t0,
  Forall eligible xs -> silence_start_time s = Some t0 ->
  (exists f, In (Some f) (snd (run xs s))) \/
  Forall (fun x => ~ silence_threshold_seconds x <= now x - t0) xs.
Proof.
  induction xs as [|x xs IH]; intros s t0 Hall Hs; [right; constructor|].
  apply Forall_cons_iff in Hall as [Hx Hall]. rewrite run_snd_cons.
  destruct (eligible_step x s t0 Hx Hs) as [(_ & f & Hf)|(Hn & Hf & Hs')].
  - left. exists f. left. exact Hf.
  - destruct (IH _ t0 Hall Hs') as [(f & Hin)|Hrest].
    + left. exists f. right. exact Hin.
    + right. constructor; assumption.
Qed.

End TriggerFacts.

(** X10. While the AFK gate is active, or playback is running but paused,
    no block schedules a trigger, however long the silence lasts. *)
Theorem no_trigger_while_held_back (xs : list Monitor.sample) (s : Monitor.state) :
  Forall held_back xs ->
  Forall (fun fired => fired = None) (snd (Monitor.run xs s)).
Proof.
  revert s. induction xs as [|x xs IH]; intros s Hall; [constructor|].
  apply Forall_cons_iff in Hall as [Hx Hall]. rewrite run_snd_cons.
  constructor; [now apply held_back_no_fire|now apply IH].
Qed.

Lemma no_trigger_while_held_back_witness :
  let away t := {| Monitor.now := t; Monitor.volume_norm := 0;
     Monitor.silence_threshold := 1 # 10; Monitor.sound_threshold := 1 # 2;
     Monitor.silence_minutes := 5;
     Monitor.afk_enabled := true; Monitor.is_afk := true;
     Monitor.is_monitoring := true; Monitor.is_paused := false |} in
  Forall (fun fired => fired = None)
    (snd (Monitor.run [away 0; away 300; away 600; away 900] monitor_idle)).
Proof.
  intros away. apply no_trigger_while_held_back.
  repeat constructor.
Defined.

(** X11. A block at or above the noise floor restarts the count: no later
    block fires before the configured duration has passed since that
    block (the clock not going back below its time meanwhile). *)
Theorem sound_restarts_the_count
    (before after : list Monitor.sample) (x b : Monitor.sample) (s : Monitor.state) :
  Monitor.below_floor x = false ->
  Forall (fun y => Monitor.now x <= Monitor.now y) after ->
  Monitor.now b - Monitor.now x < Monitor.silence_threshold_seconds b ->
  snd (Monitor.preview_callback b (fst (Monitor.run (before ++ x :: after) s))) = None.
Proof.
  intros Hx Hclock Hwin.
  destruct (snd (Monitor.preview_callback b _)) as [f|] eqn:Hf; [|reflexivity].
  exfalso.
  destruct (Monitor.preview_callback b _) as [s4 fired] eqn:Hcb. simpl in Hf. subst fired.
  apply fire_inversion in Hcb as (_ & _ & (t0 & Hs & Hd) & _).
  rewrite run_app, run_cons in Hs.
  assert (Hsince : started_since (Monitor.now x)
            (fst (Monitor.run after
                    (fst (Monitor.preview_callback x (fst (Monitor.run before s))))))).
  { apply started_since_run; [|exact Hclock].
    intros t1 H. unfold Monitor.preview_callback in H. rewrite Hx in H.
    simpl in H. discriminate H. }
  specialize (Hsince t0 Hs). lra.
Qed.

Lemma sound_restarts_the_count_witness :
  snd (Monitor.preview_callback (block 400 0)
         (fst (Monitor.run ([block 0 0] ++ block 200 (1 # 2) :: [block 201 0])
                 monitor_idle)))
  = None.
Proof.
  apply sound_restarts_the_count.
  - reflexivity.
  - repeat constructor. discriminate.
  - reflexivity.
Defined.

(** X12. A silence that lasts does fire: starting with no silence under
    way, if every block is below the noise floor with the AFK gate
    inactive and playback not paused, and some block comes at least its
    configured duration after the first one, a trigger is scheduled. *)
Theorem lasting_silence_fires
    (x0 : Monitor.sample) (xs : list Monitor.sample) (s : Monitor.state) :
  Monitor.silence_start_time s = None ->
  Forall eligible (x0 :: xs) ->
  Exists (fun y => Monitor.silence_threshold_seconds y
                   <= Monitor.now y - Monitor.now x0) xs ->
  exists f, In (Some f) (snd (Monitor.run (x0 :: xs) s)).
Proof.
  intros Hs Hall Hex. apply Forall_cons_iff in Hall as [(Hb & _) Hall].
  rewrite run_snd_cons.
  assert (Hs1 : Monitor.silence_start_time (fst (Monitor.preview_callback x0 s))
                = Some (Monitor.now x0)).
  { unfold Monitor.preview_callback. now rewrite Hb, Hs. }
  destruct (eligible_run xs _ _ Hall Hs1) as [(f & Hin)|Hnone].
  - exists f. right. exact Hin.
  - exfalso. apply Exists_exists in Hex as (y & Hin & Hy).
    rewrite Forall_forall in Hnone. exact (Hnone y Hin Hy).
Qed.

Lemma lasting_silence_fires_witness :
  exists f, In (Some f)
              (snd (Monitor.run (block 0 0 :: [block 100 0; block 299 0; block 300 0])
                      monitor_idle)).
Proof.
  apply lasting_silence_fires.
  - reflexivity.
  - repeat constructor; discriminate.
  - right. right. left. discriminate.
Defined.

(** ** The debounced indicator *)

Section IndicatorFacts.
Import Monitor Indicator.

Lemma callback_last_sound x m :
  last_sound_time (fst (preview_callback x m))
  = if below_floor x then last_sound_time m else now x.
Proof.
  unfold preview_callback.
  destruct (below_floor x); [|reflexivity].
  destruct (silence_start_time m); [|reflexivity].
  destruct (Qle_bool _ 0); [|reflexivity].
  now destruct (afk_gate x).
Qed.

Lemma callback_last_silence x m :
  last_silence_time (fst (preview_callback x m))
  = if below_floor x then now x else last_silence_time m.
Proof.
  unfold preview_callback.
  destruct (below_floor x); [|reflexivity].
  destruct (silence_start_time m); [|reflexivity].
  destruct (Qle_bool _ 0); [|reflexivity].
  now destruct (afk_gate x).
Qed.

Lemma sorted_snoc {A} (R : A -> A -> Prop) l a :
  StronglySorted R (l ++ [a]) ->
  StronglySorted R l /\ Forall (fun x => R x a) l.
Proof.
  induction l as [|b l IH]; simpl; intros H; [split; constructor|].
  apply StronglySorted_inv in H as [H Hb].
  destruct (IH H) as [Hs Hf]. apply Forall_app in Hb as [Hb1 Hb2].
  split; constructor; auto. now apply Forall_inv in Hb2.
Qed.

Lemma run_snoc es e st : Indicator.run (es ++ [e]) st = step e (Indicator.run es st).
Proof. unfold Indicator.run. now rewrite fold_left_app. Qed.

(** The timers are at or after every block of their kind seen so far. *)
Lemma timers_cover es st :
  StronglySorted (fun a b => time_of a <= time_of b) es ->
  forall x, In (Block x) es ->
    if below_floor x
    then now x <= last_silence_time (fst (Indicator.run es st))
    else now x <= last_sound_time (fst (Indicator.run es st)).
Proof.
  induction es as [|e es IH] using rev_ind; intros Hs x Hin; [contradiction|].
  apply sorted_snoc in Hs as [Hs Hle]. rewrite run_snoc.
  apply in_app_or in Hin as [Hin|[Heq|[]]]; [|subst e].
  - specialize (IH Hs x Hin).
    rewrite Forall_forall in Hle. specialize (Hle _ Hin). simpl in Hle.
    destruct e as [y|t]; simpl; [|exact IH].
    rewrite callback_last_sound, callback_last_silence.
    destruct (below_floor x), (below_floor y); auto.
  - simpl. rewrite callback_last_sound, callback_last_silence.
    destruct (below_floor x); apply Qle_refl.
Qed.

End IndicatorFacts.

(** X13. The indicator is debounced against the blocks themselves: with a
    clock that does not go back, a run of the indicator turns it to
    "silence" only if every block at or above the noise floor heard so far
    is more than 200 ms old, and back to "active" only if every block
    below the floor is. *)
Theorem indicator_waits_for_debounce
    (es : list Indicator.event) (t : Q) (m0 : Monitor.state) (shown0 : bool) :
  StronglySorted (fun a b => Indicator.time_of a <= Indicator.time_of b) es ->
  let m := fst (Indicator.run es (m0, shown0)) in
  let shown := snd (Indicator.run es (m0, shown0)) in
  Indicator.update_flicker_free_indicator t m shown <> shown ->
  forall x, In (Indicator.Block x) es ->
    Monitor.below_floor x = shown ->
    Indicator.silence_debounce_time < t - Monitor.now x.
Proof.
  intros Hs m shown Hflip x Hin Hkind.
  pose proof (timers_cover es (m0, shown0) Hs x Hin) as Hcov. fold m in Hcov.
  rewrite Hkind in Hcov.
  unfold Indicator.update_flicker_free_indicator in Hflip.
  destruct shown; simpl in Hflip.
  - destruct (Qlt_le_dec _ (t - Monitor.last_silence_time m)) as [H|H];
      [lra|now destruct Hflip].
  - destruct (Qlt_le_dec _ (t - Monitor.last_sound_time m)) as [H|H];
      [lra|now destruct Hflip].
Qed.

Lemma indicator_waits_for_debounce_witness :
  Indicator.silence_debounce_time < 11 - 10.
Proof.
  refine (indicator_waits_for_debounce
            [Indicator.Block (block 9 0); Indicator.Block (block 10 (3 # 10))]
            11 monitor_idle false _ _ (block 10 (3 # 10)) _ _).
  - repeat constructor; discriminate.
  - discriminate.
  - right. left. reflexivity.
  - reflexivity.
Defined.

(** ** The AFK detector *)

Section AfkFacts.
Import Afk.

Lemma pass_settles o s : was_afk (fst (pass o s)) = is_afk (fst (pass o s)).
Proof.
  unfold pass. destruct (detect o s) eqn:Hd, (was_afk s) eqn:Hw; reflexivity.
Qed.

Lemma passes_cons o os s :
  fst (passes (o :: os) s) = fst (passes os (fst (pass o s))).
Proof.
  simpl. destruct (pass o s) as [s1 a]. simpl. now destruct (passes os s1).
Qed.

Lemma passes_settle os : forall s,
  os <> [] -> was_afk (fst (passes os s)) = is_afk (fst (passes os s)).
Proof.
  induction os as [|o os IH]; intros s Hne; [now destruct Hne|].
  rewrite passes_cons. destruct os as [|o' os'].
  - simpl. apply pass_settles.
  - apply IH. discriminate.
Qed.

Lemma pause_request o s :
  requests_pause (snd (pass o s)) = true ->
  was_afk s = false /\ is_afk (fst (pass o s)) = true /\
  was_afk (fst (pass o s)) = true /\
  Afk.is_monitoring o = true /\ Afk.is_paused o = false.
Proof.
  unfold pass.
  destruct (detect o s) eqn:Hd, (was_afk s) eqn:Hw; simpl;
    try (destruct (show_afk_status o); simpl; discriminate).
  destruct (Afk.is_monitoring o), (Afk.is_paused o); simpl;
    try (destruct (show_afk_status o); simpl; discriminate); auto.
Qed.

End AfkFacts.

(** X14. The detector asks for a pause only when the user turns AFK while
    playback runs unpaused, and not again while the user stays AFK:
    between two passes that ask for a pause there is a pass that found the
    user active. *)
Theorem afk_pause_only_on_rising_edge
    (a b : Afk.observation) (mid : list Afk.observation) (s : Afk.state) :
  Afk.requests_pause (snd (Afk.pass a s)) = true ->
  Afk.requests_pause
    (snd (Afk.pass b (fst (Afk.passes mid (fst (Afk.pass a s)))))) = true ->
  Afk.is_monitoring a = true /\ Afk.is_paused a = false /\
  Afk.is_afk (fst (Afk.pass a s)) = true /\
  mid <> [] /\
  Afk.is_afk (fst (Afk.passes mid (fst (Afk.pass a s)))) = false.
Proof.
  intros Ha Hb.
  apply pause_request in Ha as (_ & Ha1 & Ha2 & Ha3 & Ha4).
  apply pause_request in Hb as (Hb1 & _).
  repeat split; try assumption.
  - intros ->. simpl in Hb1. congruence.
  - destruct mid as [|o mid]; [simpl in Hb1; congruence|].
    rewrite <- passes_settle by discriminate. exact Hb1.
Qed.

Lemma afk_pause_only_on_rising_edge_witness :
  let look idle := {| Afk.afk_enabled := true; Afk.idle_seconds := Some idle;
                      Afk.afk_timeout_minutes := 5; Afk.is_monitoring := true;
                      Afk.is_paused := false; Afk.show_afk_status := true |} in
  let s := {| Afk.is_afk := false; Afk.was_afk := false |} in
  [look 305; look 2] <> [] /\
  Afk.is_afk (fst (Afk.passes [look 305; look 2] (fst (Afk.pass (look 301) s)))) = false.
Proof.
  intros look s.
  refine (proj2 (proj2 (proj2 (afk_pause_only_on_rising_edge
            (look 301) (look 400) [look 305; look 2] s _ _)))); reflexivity.
Defined.

(** ** The session clock *)

(** X15. The session clock does not count a pause: after pausing at [t1]
    and resuming at [t2], the time [update_timer] shows at any [t] is what
    it showed at [t1] plus [t - t2]; while paused it shows nothing.  (The
    pause must not start at clock reading 0, which [resume_monitoring]
    takes for "no pause".) *)
Theorem pause_does_not_count
    (s : Session.state) (h : Backend.handles) (sync1 sync2 : bool) (t0 t1 t2 t : Q) :
  Session.is_monitoring s = true -> Session.is_paused s = false ->
  Session.monitoring_start_time s = Some t0 ->
  ~ t1 == 0 ->
  let paused := fst (fst (Session.pause_monitoring sync1 t1 h s)) in
  let resumed := fst (Session.resume_monitoring sync2 t2 h paused) in
  Session.update_timer t paused = None /\
  exists shown_before shown_after,
    Session.update_timer t1 s = Some shown_before /\
    Session.update_timer t resumed = Some shown_after /\
    shown_after == shown_before + (t - t2).
Proof.
  intros Hm Hp Hs Ht1 paused resumed.
  subst paused resumed.
  unfold Session.pause_monitoring, Session.resume_monitoring, Session.update_timer.
  rewrite Hm, Hp. simpl. rewrite ?Hm, ?Hs. simpl.
  split; [reflexivity|].
  assert (E : Qeq_bool t1 0 = false).
  { destruct (Qeq_bool t1 0) eqn:E; [|reflexivity].
    apply Qeq_bool_iff in E. now destruct Ht1. }
  rewrite E. simpl. do 2 eexists. split; [reflexivity|]. split; [reflexivity|].
  ring.
Qed.

Lemma pause_does_not_count_witness :
  let s := {| Session.is_monitoring := true; Session.is_paused := false;
              Session.pause_start_time := None;
              Session.monitoring_paused_time := 0;
              Session.monitoring_start_time := Some 100 |} in
  let paused := fst (fst (Session.pause_monitoring false 160 mpv_running s)) in
  let resumed := fst (Session.resume_monitoring false 400 mpv_running paused) in
  Session.update_timer 410 paused = None /\
  exists shown_before shown_after,
    Session.update_timer 160 s = Some shown_before /\
    Session.update_timer 410 resumed = Some shown_after /\
    shown_after == shown_before + (410 - 400).
Proof.
  intros s.
  apply (pause_does_not_count s mpv_running false false 100 160 400 410);
    try reflexivity. discriminate.
Defined.

(** ** Navigation and the monitor loop *)

(** X16. A navigation command that has an effect on the main queue sets
    the skip event and stores an index from which the loop's increment
    reaches the position asked for, which is a position of the queue: the
    next or the previous item, the item skipped to (clamped to the ends,
    no wrap-around) or the item whose number was entered.  A command
    without effect (at an end of the queue, a number out of range or not a
    number) changes nothing. *)
Theorem navigation_reaches_target (c : Player.command) (s : Player.state) :
  Player.is_monitoring s = true ->
  Player.current_playlist_videos s = [] ->
  (0 <= Player.main_queue_index s < Player.len (Player.main_queue s))%Z ->
  if effective c s then
    Player.skip_event (Player.apply c s) = true /\
    Player.main_queue_index (Backlog.loop_increment (Player.apply c s)) = target c s /\
    (0 <= target c s < Player.len (Player.main_queue s))%Z
  else Player.apply c s = s.
Proof.
  intros Hm Hp Hi.
  assert (Hq : Player.nonempty (Player.main_queue s) = true).
  { destruct (Player.main_queue s); [unfold Player.len in Hi; simpl in Hi; lia|reflexivity]. }
  destruct c as [| |count|[t|]]; unfold effective, target; simpl;
    unfold Player.next_video, Player.previous_video, Player.skip_videos,
      Player.on_jump_entry;
    rewrite ?Hm, ?Hp, ?Hq; simpl.
  - destruct (Player.main_queue_index s <? _)%Z eqn:E; [|reflexivity].
    apply Z.ltb_lt in E. simpl. repeat split; lia.
  - destruct (0 <? Player.main_queue_index s)%Z eqn:E; [|reflexivity].
    apply Z.ltb_lt in E. simpl. repeat split; lia.
  - pose proof (clamp_range (Player.main_queue_index s + count) (Player.main_queue s)
                  ltac:(lia)) as Hc.
    destruct (_ =? _)%Z eqn:E; [reflexivity|]. simpl. repeat split; lia.
  - destruct ((1 <=? t)%Z && (t <=? _)%Z) eqn:E; [|reflexivity].
    apply andb_true_iff in E as [E1 E2]. apply Z.leb_le in E1, E2.
    simpl. repeat split; lia.
  - reflexivity.
Qed.

Lemma navigation_reaches_target_witness :
  Player.skip_event (Player.apply (Player.Skip (-7)) three_playing_second) = true /\
  Player.main_queue_index
    (Backlog.loop_increment (Player.apply (Player.Skip (-7)) three_playing_second))
  = 0%Z /\
  (0 <= 0 < 3)%Z.
Proof.
  apply (navigation_reaches_target (Player.Skip (-7)) three_playing_second).
  - reflexivity.
  - reflexivity.
  - unfold Player.len. simpl. lia.
Defined.

(** X17. The rebuilt queue keeps the current item at the current index,
    and the items before it as they were: the index stays a position of
    the queue and points at the item that is playing. *)
Theorem rebuild_keeps_current_at_index
    (sh : shuffler) (new_mode : string) (s : Player.state) (cur : string) :
  Player.current_url s = Some cur -> cur <> ""%string ->
  (0 <= Player.main_queue_index s < Player.len (Player.main_queue s))%Z ->
  let s' := Player.rebuild_queue_dynamically sh new_mode s in
  let n := Z.to_nat (Player.main_queue_index s) in
  Player.main_queue_index s' = Player.main_queue_index s /\
  nth_error (Player.main_queue s') n = Some cur /\
  firstn n (Player.main_queue s') = firstn n (Player.main_queue s) /\
  (Player.main_queue_index s' < Player.len (Player.main_queue s'))%Z.
Proof.
  intros Hcur Hne Hi s' n.
  assert (Hq : Player.main_queue s <> []).
  { intros E. rewrite E in Hi. unfold Player.len in Hi. simpl in Hi. lia. }
  destruct (rebuild_shape sh new_mode s cur Hcur Hne Hq) as (up & Heq & _).
  subst s'. rewrite Heq. simpl.
  unfold Slice.upto, Player.len in *. rewrite bound_inside by lia. fold n.
  assert (Hlen : List.length (firstn n (Player.main_queue s)) = n)
    by (apply firstn_length_le; lia).
  repeat split.
  - rewrite nth_error_app2 by lia. rewrite Hlen, Nat.sub_diag. reflexivity.
  - rewrite firstn_app, Hlen, Nat.sub_diag, firstn_O, app_nil_r.
    now rewrite firstn_firstn, Nat.min_id.
  - rewrite length_app, Hlen. simpl. lia.
Qed.

Lemma rebuild_keeps_current_at_index_witness :
  let s' := Player.rebuild_queue_dynamically reversing "Shuffle All" shuffled_three in
  Player.main_queue_index s' = 0%Z /\
  nth_error (Player.main_queue s') 0 = Some "c.mp4"%string /\
  firstn 0 (Player.main_queue s') = firstn 0 (Player.main_queue shuffled_three) /\
  (Player.main_queue_index s' < Player.len (Player.main_queue s'))%Z.
Proof.
  apply (rebuild_keeps_current_at_index reversing "Shuffle All" shuffled_three "c.mp4").
  - reflexivity.
  - discriminate.
  - unfold Player.len. simpl. lia.
Defined.

(** ** Building the queue and starting *)

Lemma filter_partition_perm {A} (f : A -> bool) (l : list A) :
  Permutation (filter (fun x => negb (f x)) l ++ filter f l) l.
Proof.
  induction l as [|a l IH]; simpl; [constructor|].
  destruct (f a); simpl.
  - apply Permutation_sym, Permutation_cons_app, Permutation_sym, IH.
  - now constructor.
Qed.

(** X18. Whatever the ordering flags, the queue built at start holds
    exactly the items of the expanded list, each as often as there: no
    item is dropped or repeated by the ordering; with neither shuffle
    flag set the order is the input order. *)
Theorem build_queue_is_a_permutation
    (sh : shuffler) (st : Ledger.stats) (smart random : bool) (urls : list string) :
  Permutation (Player.build_queue sh st smart random urls) urls /\
  (smart = false -> random = false -> Player.build_queue sh st smart random urls = urls).
Proof.
  unfold Player.build_queue. split.
  - destruct smart; [|destruct random; [apply shuffle_perm|reflexivity]].
    eapply Permutation_trans; [|apply (filter_partition_perm (Player.is_finished st))].
    apply Permutation_app_tail, shuffle_perm.
  - now intros -> ->.
Qed.

Section BacklogFacts.
Import Backlog.



End BacklogFacts.



(** X20. Expanding the first playlist never loses the queue: the items
    after the first are kept as they are and the result is not empty; the
    list changes only when the first item is a playlist, playlists are not
    treated as videos, and the scrape brought videos other than the
    playlist's own url.  A failed or empty scrape leaves the list as it
    was. *)
Theorem always_expand_keeps_the_rest
    (treat : bool) (fs : string -> Backlog.path_facts)
    (scrape : string -> Backlog.expansion) (first_url : string) (rest : list string) :
  let result := Backlog.always_expand_playlists treat fs scrape (first_url :: rest) in
  (exists front, front <> [] /\ result = front ++ rest) /\
  (result <> first_url :: rest ->
   treat = false /\ Backlog.is_playlist treat fs first_url = true /\
   exists videos, scrape first_url = Backlog.Scraped videos /\
                  Backlog.no_expansion videos first_url = false /\
                  result = videos ++ rest).
Proof.
  intros result. subst result. unfold Backlog.always_expand_playlists.
  destruct (Backlog.is_playlist treat fs first_url) eqn:Hpl; simpl.
  2:{ split; [exists [first_url]; split; [discriminate|reflexivity]|].
      intros H. now destruct H. }
  destruct treat; simpl.
  { split; [exists [first_url]; split; [discriminate|reflexivity]|].
    intros H. now destruct H. }
  destruct (scrape first_url) as [videos|] eqn:Hs.
  2:{ split; [exists [first_url]; split; [discriminate|reflexivity]|].
      intros H. now destruct H. }
  destruct (Backlog.no_expansion videos first_url) eqn:Hn.
  { split; [exists [first_url]; split; [discriminate|reflexivity]|].
    intros H. now destruct H. }
  split.
  - exists videos. split; [|reflexivity]. intros ->. discriminate Hn.
  - intros _. repeat split. exists videos. auto.
Qed.

(** X21. A start that is not "from the beginning" begins with something
    to watch: when the list holds no playlist and the start is accepted,
    the queue built under smart shuffle has an unfinished item at its
    head. *)
Theorem smart_start_begins_unwatched
    (sh : shuffler) (treat random : bool) (fs : string -> Backlog.path_facts)
    (scrape : string -> Backlog.expansion) (st : Ledger.stats) (urls : list string) :
  existsb (Backlog.is_playlist treat fs) urls = false ->
  Backlog.start_monitoring false treat fs st urls = Backlog.Started false ->
  exists first others,
    Player.build_queue sh st true random
      (Backlog.always_expand_playlists treat fs scrape urls) = first :: others /\
    Player.is_finished st first = false.
Proof.
  intros Hnp Hstart.
  assert (Hexp : Backlog.always_expand_playlists treat fs scrape urls = urls).
  { destruct urls as [|u urls]; [reflexivity|].
    simpl in Hnp. apply orb_false_iff in Hnp as [Hu _].
    unfold Backlog.always_expand_playlists. now rewrite Hu. }
  rewrite Hexp. unfold Backlog.start_monitoring in Hstart.
  destruct urls as [|u urls]; [simpl in Hstart; discriminate Hstart|].
  cbv beta iota in Hstart. rewrite Hnp in Hstart.
  set (unwatched := filter (fun url => negb (Player.is_finished st url)) (u :: urls)) in *.
  destruct (Player.nonempty unwatched) eqn:Hne; [|simpl in Hstart; discriminate Hstart].
  unfold Player.build_queue. fold unwatched.
  pose proof (shuffle_perm sh unwatched) as Hperm.
  destruct (sh unwatched) as [|first others] eqn:Hsh.
  - apply Permutation_nil in Hperm.
    rewrite Hperm in Hne. discriminate.
  - exists first, (others ++ filter (Player.is_finished st) (u :: urls)).
    split; [reflexivity|].
    assert (Hin : In first unwatched)
      by (apply (Permutation_in _ Hperm); left; reflexivity).
    unfold unwatched in Hin. apply filter_In in Hin as [_ Hin].
    now apply negb_true_iff.
Qed.

Lemma smart_start_begins_unwatched_witness :
  exists first others,
    Player.build_queue reversing ledger_2024 true false
      (Backlog.always_expand_playlists false
         (fun _ => {| Backlog.isdir := false; Backlog.isfile := true |})
         (fun _ => Backlog.ScrapeFailed)
         ["a.mp4"; "https://www.bilibili.com/video/BV1xx411c7mD"]%string)
    = first :: others /\
    Player.is_finished ledger_2024 first = false.
Proof.
  apply smart_start_begins_unwatched; reflexivity.
Defined.

(** ** Canonical references: what is kept and what is stripped *)

Section CleanUrlMore.
Import CleanUrl.

Lemma chars_app (a b : string) :
  list_ascii_of_string (a ++ b) = list_ascii_of_string a ++ list_ascii_of_string b.
Proof. induction a as [|c a IH]; simpl; [reflexivity|now rewrite IH]. Qed.

Lemma string_app (a b : list ascii) :
  string_of_list_ascii (a ++ b)
  = (string_of_list_ascii a ++ string_of_list_ascii b)%string.
Proof. induction a as [|c a IH]; simpl; [reflexivity|now rewrite IH]. Qed.

Lemma lit_prefixing p k : prefixing k -> prefixing (lit p k).
Proof.
  intros Hk s m H. unfold lit in H.
  destruct (strip_prefix p s) as [r0|] eqn:Hp; [|discriminate].
  apply strip_prefix_some in Hp. subst s.
  destruct (k r0) as [m'|] eqn:Hm; [|discriminate]. simpl in H. inversion H; subst.
  destruct (Hk _ _ Hm) as [r ->]. exists r. now rewrite app_assoc.
Qed.

Lemma opt_prefixing p k : prefixing k -> prefixing (opt p k).
Proof.
  intros Hk s m H. unfold opt in H.
  destruct (lit p k s) as [m0|] eqn:Hl.
  - inversion H; subst. exact (lit_prefixing p k Hk _ _ Hl).
  - exact (Hk _ _ H).
Qed.

Lemma take_while_prefix cls s : exists r, s = take_while cls s ++ r.
Proof.
  induction s as [|c s [r IH]]; simpl; [exists []; reflexivity|].
  destruct (cls c); [exists r; simpl; now rewrite <- IH|exists (c :: s); reflexivity].
Qed.

Lemma plus_prefixing cls : prefixing (plus_class cls).
Proof.
  intros s m H. unfold plus_class in H.
  destruct (take_while_prefix cls s) as [r Hr].
  destruct (take_while cls s) as [|c t]; [discriminate|].
  inversion H; subst. eauto.
Qed.

Lemma search_within re : prefixing re ->
  forall s m, search re s = Some m -> exists a b, s = a ++ m ++ b.
Proof.
  intros Hre. induction s as [|c s IH]; simpl; intros m H.
  - destruct (re []) eqn:E; [|discriminate]. inversion H; subst.
    destruct (Hre _ _ E) as [r Hr]. exists [], r. exact Hr.
  - destruct (re (c :: s)) eqn:E.
    + inversion H; subst. destruct (Hre _ _ E) as [r Hr]. exists [], r. exact Hr.
    + destruct (IH _ H) as (a & b & ->). exists (c :: a), b. reflexivity.
Qed.

Lemma url_re_prefixing host cls :
  prefixing (lit (T "http") (opt (T "s") (lit (T "://") (opt (T "www.")
    (lit host (plus_class cls)))))).
Proof.
  repeat (apply lit_prefixing || apply opt_prefixing). apply plus_prefixing.
Qed.

Lemma clean_text_within url : exists a b, url = a ++ clean_text url ++ b.
Proof.
  unfold clean_text.
  assert (Hself : exists a b, url = a ++ url ++ b)
    by (exists [], []; now rewrite app_nil_r).
  destruct (contains (T "bilibili.com") url).
  - destruct (search bilibili_re url) eqn:E; [|exact Hself].
    exact (search_within _ (url_re_prefixing _ _) _ _ E).
  - destruct (contains (T "youtube.com") url); [|exact Hself].
    destruct (search youtube_re url) eqn:E; [|exact Hself].
    exact (search_within _ (url_re_prefixing _ _) _ _ E).
Qed.

Lemma take_while_stop cls tail rest :
  forallb cls tail = true ->
  match rest with [] => True | c :: _ => cls c = false end ->
  take_while cls (tail ++ rest) = tail.
Proof.
  intros Hall Hstop. induction tail as [|c tail IH]; simpl in *.
  - destruct rest as [|d rest]; [reflexivity|]. simpl. now rewrite Hstop.
  - apply andb_true_iff in Hall as [Hc Hall]. rewrite Hc. now rewrite IH.
Qed.

Lemma plus_class_stop cls tail rest :
  tail <> [] -> forallb cls tail = true ->
  match rest with [] => True | c :: _ => cls c = false end ->
  plus_class cls (tail ++ rest) = Some tail.
Proof.
  intros Hne Hall Hstop. unfold plus_class.
  rewrite (take_while_stop _ _ _ Hall Hstop). destruct tail; [contradiction|reflexivity].
Qed.

Lemma url_re_match host cls (secure www : bool) tail rest :
  (forall t, strip_prefix (T "www.") (host ++ t) = None) ->
  tail <> [] -> forallb cls tail = true ->
  match rest with [] => True | c :: _ => cls c = false end ->
  let sch := if secure then T "s" else [] in
  let w := if www then T "www." else [] in
  lit (T "http") (opt (T "s") (lit (T "://") (opt (T "www.")
    (lit host (plus_class cls)))))
    (T "http" ++ sch ++ T "://" ++ w ++ host ++ tail ++ rest)
  = Some (T "http" ++ sch ++ T "://" ++ w ++ host ++ tail).
Proof.
  intros Hhost Hne Hall Hstop sch w.
  apply lit_app.
  assert (H1 : opt (T "www.") (lit host (plus_class cls)) (w ++ host ++ tail ++ rest)
               = Some (w ++ host ++ tail)).
  { subst w. destruct www.
    - apply opt_take, lit_app, plus_class_stop; assumption.
    - cbn [app]. rewrite opt_skip by apply Hhost.
      apply lit_app, plus_class_stop; assumption. }
  subst sch. destruct secure.
  - now apply opt_take, lit_app.
  - cbn [app]. rewrite opt_skip by reflexivity. now apply lit_app.
Qed.

Lemma clean_text_bilibili (secure www : bool) tail r :
  tail <> [] -> forallb alnum tail = true ->
  match r with [] => True | c :: _ => alnum c = false end ->
  let sch := if secure then T "s" else [] in
  let w := if www then T "www." else [] in
  clean_text (T "http" ++ sch ++ T "://" ++ w ++ T "bilibili.com/video/BV" ++ tail ++ r)
  = T "http" ++ sch ++ T "://" ++ w ++ T "bilibili.com/video/BV" ++ tail.
Proof.
  intros Hne Hall Hstop sch w.
  assert (Hm : bilibili_re
            (T "http" ++ sch ++ T "://" ++ w ++ T "bilibili.com/video/BV" ++ tail ++ r)
          = Some (T "http" ++ sch ++ T "://" ++ w ++ T "bilibili.com/video/BV" ++ tail))
    by (apply (url_re_match _ _ secure www); try assumption; reflexivity).
  unfold clean_text. rewrite (search_here _ _ _ Hm).
  replace (T "http" ++ sch ++ T "://" ++ w ++ T "bilibili.com/video/BV" ++ tail ++ r)
    with ((T "http" ++ sch ++ T "://" ++ w)
          ++ T "bilibili.com" ++ T "/video/BV" ++ tail ++ r)
    by (now rewrite <- !app_assoc).
  now rewrite contains_here.
Qed.

Lemma clean_text_youtube (secure www : bool) tail r :
  tail <> [] -> forallb idchar tail = true ->
  match r with [] => True | c :: _ => idchar c = false end ->
  let sch := if secure then T "s" else [] in
  let w := if www then T "www." else [] in
  contains (T "bilibili.com")
    (T "http" ++ sch ++ T "://" ++ w ++ T "youtube.com/watch?v=" ++ tail ++ r) = false ->
  clean_text (T "http" ++ sch ++ T "://" ++ w ++ T "youtube.com/watch?v=" ++ tail ++ r)
  = T "http" ++ sch ++ T "://" ++ w ++ T "youtube.com/watch?v=" ++ tail.
Proof.
  intros Hne Hall Hstop sch w Hnb.
  assert (Hm : youtube_re
            (T "http" ++ sch ++ T "://" ++ w ++ T "youtube.com/watch?v=" ++ tail ++ r)
          = Some (T "http" ++ sch ++ T "://" ++ w ++ T "youtube.com/watch?v=" ++ tail))
    by (apply (url_re_match _ _ secure www); try assumption; reflexivity).
  unfold clean_text. rewrite Hnb, (search_here _ _ _ Hm).
  replace (T "http" ++ sch ++ T "://" ++ w ++ T "youtube.com/watch?v=" ++ tail ++ r)
    with ((T "http" ++ sch ++ T "://" ++ w)
          ++ T "youtube.com" ++ T "/watch?v=" ++ tail ++ r)
    by (now rewrite <- !app_assoc).
  now rewrite contains_here.
Qed.

Lemma video_url_rest_chars secure www host id rest :
  list_ascii_of_string (video_url secure www host id ++ rest)
  = T "http" ++ (if secure then T "s" else []) ++ T "://"
    ++ (if www then T "www." else []) ++ list_ascii_of_string host
    ++ list_ascii_of_string id ++ list_ascii_of_string rest.
Proof.
  unfold video_url, T. rewrite !chars_app, <- !app_assoc. now destruct secure, www.
Qed.

Lemma video_url_chars secure www host id :
  list_ascii_of_string (video_url secure www host id)
  = T "http" ++ (if secure then T "s" else []) ++ T "://"
    ++ (if www then T "www." else []) ++ list_ascii_of_string host
    ++ list_ascii_of_string id.
Proof.
  unfold video_url, T. rewrite !chars_app. now destruct secure, www.
Qed.

Lemma stops_chars cls rest :
  stops cls rest ->
  match list_ascii_of_string rest with [] => True | c :: _ => cls c = false end.
Proof. now destruct rest. Qed.

Lemma chars_nonempty id : id <> ""%string -> list_ascii_of_string id <> [].
Proof. destruct id; [now intros H|discriminate]. Qed.

End CleanUrlMore.

(** X22. The canonical ref is a piece of the reference it comes from:
    [_clean_url] only cuts text away before and after, it never rewrites
    or adds a character. *)
Theorem clean_url_is_a_substring (url : string) :
  exists before after : string,
    url = (before ++ CleanUrl._clean_url url ++ after)%string.
Proof.
  destruct (clean_text_within (list_ascii_of_string url)) as (a & b & H).
  exists (string_of_list_ascii a), (string_of_list_ascii b).
  unfold CleanUrl._clean_url. rewrite <- !string_app, <- H.
  now rewrite string_of_list_ascii_of_string.
Qed.

(** X23. For a bilibili video address (http or https, with or without
    [www.], a non-empty alphanumeric id after [BV]) whatever follows the
    id, such as a query string of tracking parameters, is stripped. *)
Theorem bilibili_parameters_are_stripped (secure www : bool) (id rest : string) :
  id <> ""%string ->
  forallb CleanUrl.alnum (list_ascii_of_string id) = true ->
  stops CleanUrl.alnum rest ->
  CleanUrl._clean_url (video_url secure www "bilibili.com/video/BV" id ++ rest)
  = video_url secure www "bilibili.com/video/BV" id.
Proof.
  intros Hne Hall Hstop.
  unfold CleanUrl._clean_url. rewrite video_url_rest_chars.
  rewrite (clean_text_bilibili secure www).
  - rewrite <- video_url_chars. apply string_of_list_ascii_of_string.
  - now apply chars_nonempty.
  - exact Hall.
  - now apply stops_chars.
Qed.

Lemma bilibili_parameters_are_stripped_witness :
  CleanUrl._clean_url
    (video_url true true "bilibili.com/video/BV" "1xx411c7mD" ++ "/?spm_id_from=333.1007")
  = video_url true true "bilibili.com/video/BV" "1xx411c7mD".
Proof.
  apply bilibili_parameters_are_stripped; [discriminate|reflexivity|reflexivity].
Defined.

(** X24. For a youtube watch address the same holds, unless the text
    ['bilibili.com'] occurs somewhere in the reference: that makes
    [_clean_url] take the bilibili branch, which has no fallback to the
    youtube pattern. *)
Theorem youtube_parameters_are_stripped (secure www : bool) (id rest : string) :
  id <> ""%string ->
  forallb CleanUrl.idchar (list_ascii_of_string id) = true ->
  stops CleanUrl.idchar rest ->
  Backlog.has "bilibili.com" (video_url secure www "youtube.com/watch?v=" id ++ rest)
  = false ->
  CleanUrl._clean_url (video_url secure www "youtube.com/watch?v=" id ++ rest)
  = video_url secure www "youtube.com/watch?v=" id.
Proof.
  intros Hne Hall Hstop Hnb.
  unfold CleanUrl._clean_url. unfold Backlog.has in Hnb.
  rewrite video_url_rest_chars in *.
  rewrite (clean_text_youtube secure www).
  - rewrite <- video_url_chars. apply string_of_list_ascii_of_string.
  - now apply chars_nonempty.
  - exact Hall.
  - now apply stops_chars.
  - exact Hnb.
Qed.

Lemma youtube_parameters_are_stripped_witness :
  CleanUrl._clean_url
    (video_url true false "youtube.com/watch?v=" "dQw4w9WgXcQ" ++ "&t=42s")
  = video_url true false "youtube.com/watch?v=" "dQw4w9WgXcQ".
Proof.
  apply youtube_parameters_are_stripped; [discriminate|reflexivity|reflexivity|reflexivity].
Defined.

(** The exception of X24, run: a youtube address that mentions
    ['bilibili.com'] is left as it is. *)
Example youtube_mentioning_bilibili_is_kept :
  CleanUrl._clean_url "https://youtube.com/watch?v=dQw4w9WgXcQ&from=bilibili.com"
  = "https://youtube.com/watch?v=dQw4w9WgXcQ&from=bilibili.com"%string.
Proof. reflexivity. Qed.

(** ** The playing loops *)

Section LoopFacts.
Import Player Loop.

Lemma happen_keeps_no_playlist e w :
  current_playlist_videos (player w) = [] ->
  current_playlist_videos (player (happen e w)) = [] /\
  current_playlist_index (player (happen e w)) = current_playlist_index (player w).
Proof.
  intros Hp. destruct e as [c|paused|]; simpl.
  - destruct c as [| |count|[t|]]; simpl;
      unfold next_video, previous_video, skip_videos, on_jump_entry;
      rewrite ?Hp; simpl;
      repeat match goal with
        | |- context [if ?b then _ else _] => destruct b
        end; simpl; auto.
  - unfold handle_silence_trigger. rewrite Hp. simpl. rewrite andb_false_r.
    destruct (is_monitoring (player w) && negb paused); simpl; auto.
    unfold next_video. rewrite Hp. simpl.
    repeat match goal with
      | |- context [if ?b then _ else _] => destruct b
      end; simpl; auto.
  - auto.
Qed.

Lemma happenings_keep_no_playlist es : forall w,
  current_playlist_videos (player w) = [] ->
  current_playlist_videos (player (fold_left (fun w e => happen e w) es w)) = [] /\
  current_playlist_index (player (fold_left (fun w e => happen e w) es w))
  = current_playlist_index (player w).
Proof.
  induction es as [|e es IH]; intros w Hp; [auto|]. simpl.
  destruct (happen_keeps_no_playlist e w Hp) as [H1 H2].
  destruct (IH _ H1) as [H3 H4]. split; [exact H3|congruence].
Qed.

Lemma single_video_leaves_no_playlist video_url ep w :
  current_playlist_videos (player (handle_single_video video_url ep w)) = [] /\
  current_playlist_index (player (handle_single_video video_url ep w)) = 0%Z.
Proof.
  unfold handle_single_video. simpl.
  apply (happenings_keep_no_playlist (during ep)). reflexivity.
Qed.

Lemma playlist_loop_done fuel ignore eps w :
  current_playlist_videos (player w) = [] ->
  (0 <= current_playlist_index (player w))%Z ->
  playlist_loop fuel ignore eps w = (w, [], eps).
Proof.
  intros Hp Hi. destruct fuel; [reflexivity|]. simpl. rewrite Hp.
  assert (E : (current_playlist_index (player w) <? len [])%Z = false)
    by (apply Z.ltb_ge; unfold len; simpl; lia).
  now rewrite E.
Qed.

Lemma playlist_loop_short fuel ignore : forall eps w,
  (List.length (snd (fst (playlist_loop fuel ignore eps w))) <= 1)%nat.
Proof.
  induction fuel as [|fuel IH]; intros eps w; [simpl; lia|].
  cbn -[handle_single_video playlist_loop_done].
  destruct (_ && _ && _); [|simpl; lia].
  destruct (py_nth _ _) as [video|]; [|simpl; lia].
  destruct (negb ignore && is_finished (stats w) video); [apply IH|].
  destruct (next_episode eps) as [ep eps'].
  match goal with
  | |- context [handle_single_video video ep ?w1] =>
      destruct (single_video_leaves_no_playlist video ep w1) as [H1 H2];
      remember (handle_single_video video ep w1) as w2 eqn:Hw2
  end.
  rewrite playlist_loop_done; cbn; [lia|exact H1|rewrite H2; lia].
Qed.





End LoopFacts.

(** X25. [handle_playlist_sequential] handles at most one video of the
    playlist: [handle_single_video] empties [current_playlist_videos], so
    when it returns the playlist's loop finds its index past the end of an
    empty list and stops, whatever navigation, silence triggers or stops
    arrived meanwhile.  On leaving, no playlist is current. *)
Theorem playlist_plays_at_most_one_video
    (fuel : nat) (sh : shuffler) (ignore responsive : bool)
    (scraped : Backlog.expansion) (playlist_url : string)
    (eps : list Loop.episode) (w : Loop.session) :
  let '(w', played, _) :=
    Loop.handle_playlist_sequential fuel sh ignore responsive scraped playlist_url eps w in
  (List.length played <= 1)%nat /\
  (responsive = true ->
   Player.current_playlist_videos (Loop.player w') = []).
Proof.
  unfold Loop.handle_playlist_sequential.
  destruct responsive; simpl; [|split; [lia|discriminate]].
  destruct scraped as [videos|]; [|simpl; split; [lia|reflexivity]].
  destruct (Backlog.no_expansion videos playlist_url).
  - destruct (Loop.next_episode eps) as [ep eps']. split; [simpl; lia|].
    intros _. apply single_video_leaves_no_playlist.
  - match goal with
    | |- context [Loop.playlist_loop fuel ignore eps ?w1] =>
        pose proof (playlist_loop_short fuel ignore eps w1) as Hshort;
        destruct (Loop.playlist_loop fuel ignore eps w1) as [[w2 played] eps']
    end.
    simpl in Hshort. split; [exact Hshort|reflexivity].
Qed.

(** A playlist of three unwatched videos, run: only the first is handled. *)
Example playlist_of_three_plays_one :
  let w := {| Loop.player := three_playing_second; Loop.playlist_exhausted := false;
              Loop.stats := [] |} in
  snd (fst (Loop.handle_playlist_sequential 10 keep_order false true
              (Backlog.Scraped ["v1"; "v2"; "v3"]%string) "list" [] w))
  = ["v1"%string].
Proof. reflexivity. Qed.





(** ** The quick modes *)

(** X28. Chosen while nothing plays, each quick mode sets the flags that
    give the queue its order at the next start: Sequential keeps the input
    order; Shuffle All shuffles the whole list; Smart Shuffle puts the
    shuffled unwatched items before the finished ones; True Random sets
    the flag that replaces the queue by random draws; Custom leaves the
    flags as the user set them.  The mode is remembered as the previous
    one. *)
Theorem quick_modes_order_the_queue
    (sh : shuffler) (st : Ledger.stats) (s : Player.state) (urls : list string) :
  Player.is_monitoring s = false ->
  let mode := Player.playlist_mode_var s in
  let s' := fst (Player.on_playlist_mode_change sh s) in
  let queue := Player.build_queue sh st (Player.smart_shuffle s') (Player.random_list s')
                 urls in
  Player.previous_playlist_mode s' = mode /\
  (mode = "Sequential"%string ->
   queue = urls /\ Player.true_random_on_skip s' = false) /\
  (mode = "Shuffle All"%string ->
   queue = sh urls /\ Player.true_random_on_skip s' = false) /\
  (mode = "Smart Shuffle"%string ->
   queue = sh (filter (fun url => negb (Player.is_finished st url)) urls)
           ++ filter (Player.is_finished st) urls /\
   Player.true_random_on_skip s' = false) /\
  (mode = "True Random"%string -> Player.true_random_on_skip s' = true) /\
  (mode = "Custom"%string ->
   Player.smart_shuffle s' = Player.smart_shuffle s /\
   Player.random_list s' = Player.random_list s /\
   Player.true_random_on_skip s' = Player.true_random_on_skip s).
Proof.
  intros Hm mode s' queue. subst mode s' queue.
  unfold Player.on_playlist_mode_change. rewrite Hm. simpl.
  unfold Player.preset, Player.build_queue.
  repeat split; intros;
    try match goal with
      | H : Player.playlist_mode_var s = _ |- _ => rewrite H; simpl
      end;
    repeat match goal with
      | |- context [if String.eqb ?a ?b then _ else _] => destruct (String.eqb a b)
      end; reflexivity.
Qed.

Lemma quick_modes_order_the_queue_witness :
  let s := Loop.assign custom_five false 0 [] 0 None false in
  Player.build_queue reversing ledger_2024
    (Player.smart_shuffle (fst (Player.on_playlist_mode_change reversing s)))
    (Player.random_list (fst (Player.on_playlist_mode_change reversing s)))
    ["A"; "B"; "C"]%string
  = ["A"; "B"; "C"]%string.
Proof.
  intros s.
  pose proof (quick_modes_order_the_queue reversing ledger_2024 s ["A"; "B"; "C"]%string
                eq_refl) as (_ & Hseq & _).
  exact (proj1 (Hseq eq_refl)).
Defined.
